(** * Smart Movie Recommendation Assistant: [tasks.py] in Rocq

    A shallow embedding of the slot extractor ([identify_slots]), the
    candidate ranker ([_score_movie_against_slots], [retrieve_candidates]),
    the prompt builder ([build_dynamic_prompt]) and the clarification policy
    ([get_ai_response]) of [tasks.py], followed by the properties the
    specification states about them and by further properties read off the
    code.

    Conventions.
    - A Python [str] is a list of Unicode code points ([str := list N]).
      The character tables ([lower], [\w], [\d], [isdigit], [isspace]) are
      those of CPython, written out for U+0000..U+00FF; what they say of a
      code point above U+00FF, and the longest integer literal [int()]
      accepts, are left to the class [interpreter], so every theorem holds
      whatever the Unicode version and the settings of the interpreter
      are.
    - A Python [dict] of strings is an association list in insertion order
      ([build_dynamic_prompt] iterates it in that order).
    - A Python exception is a value of the [result] monad. *)

From Stdlib Require Import ZArith NArith List String Ascii Bool Lia.
From Stdlib Require Import Sorting.Sorted Sorting.Permutation.
From Stdlib Require Import Numbers.DecimalString.
Import ListNotations.

Local Open Scope N_scope.

(* ================================================================== *)
(** ** Python strings *)

Module Py.

Definition str := list N.

(** Decoding of a UTF-8 byte sequence, used for the literals of the source
    file only: [u "text"] is the [str] a Python literal ['text'] denotes. *)
Fixpoint utf8_decode (bs : list N) : str :=
  match bs with
  | [] => []
  | b :: r =>
      if b <? 128 then b :: utf8_decode r
      else if b <? 224 then
        match r with
        | b2 :: r' => ((b - 192) * 64 + (b2 - 128)) :: utf8_decode r'
        | [] => [b]
        end
      else
        match r with
        | b2 :: b3 :: r' =>
            ((b - 224) * 4096 + (b2 - 128) * 64 + (b3 - 128)) :: utf8_decode r'
        | _ => b :: r
        end
  end.

Definition u (s : string) : str :=
  utf8_decode (map N_of_ascii (list_ascii_of_string s)).

Definition in_range (lo hi c : N) : bool := (lo <=? c) && (c <=? hi).

(** A decimal digit, as [\d] matches it and [int()] reads it. *)
Inductive digit := Dg0 | Dg1 | Dg2 | Dg3 | Dg4 | Dg5 | Dg6 | Dg7 | Dg8 | Dg9.

Definition digit_val (d : digit) : Z :=
  match d with
  | Dg0 => 0 | Dg1 => 1 | Dg2 => 2 | Dg3 => 3 | Dg4 => 4
  | Dg5 => 5 | Dg6 => 6 | Dg7 => 7 | Dg8 => 8 | Dg9 => 9
  end%Z.

(** What depends on the interpreter at hand.  The Unicode character
    database beyond U+00FF, as CPython reads it: [str.lower()] of a text
    that holds such a code point (it is not a character-wise map there), the
    word characters of [\w], the value of a decimal digit (category Nd),
    [str.isdigit()] and [str.isspace()]; no blank is a decimal digit.  And
    [sys.get_int_max_str_digits()], the number of digits beyond which
    [int()] refuses a literal: 0 for no limit (the interpreters without the
    setting), 4300 by default, never between 1 and 639. *)
Class interpreter := {
  hi_lower : str -> str;
  hi_word : N -> bool;
  hi_decimal : N -> option digit;
  hi_digit : N -> bool;
  hi_space : N -> bool;
  hi_space_not_decimal : forall c, hi_space c = true -> hi_decimal c = None;
  int_max_str_digits : N;
  int_max_str_digits_range : int_max_str_digits = 0 \/ 640 <= int_max_str_digits
}.

(** Tables that know no letter, digit or blank beyond U+00FF, and the
    default limit: enough to evaluate the program on a text within
    U+0000..U+00FF, where the tables beyond are not consulted. *)
Definition latin1_only : interpreter :=
  {| hi_lower := fun s => s;
     hi_word := fun _ => false;
     hi_decimal := fun _ => None;
     hi_digit := fun _ => false;
     hi_space := fun _ => false;
     hi_space_not_decimal := fun _ _ => eq_refl;
     int_max_str_digits := 4300;
     int_max_str_digits_range := or_intror (proj1 (N.leb_le 640 4300) eq_refl) |}.

Definition is_latin1 (c : N) : bool := c <=? 255.

(** [str.lower()] of one code point up to U+00FF. *)
Definition lower_cp (c : N) : N :=
  if in_range 65 90 c then c + 32
  else if in_range 192 222 c && negb (c =? 215) then c + 32
  else c.

(** The ten ASCII digits. *)
Definition ascii_digit (c : N) : option digit :=
  if c =? 48 then Some Dg0 else if c =? 49 then Some Dg1
  else if c =? 50 then Some Dg2 else if c =? 51 then Some Dg3
  else if c =? 52 then Some Dg4 else if c =? 53 then Some Dg5
  else if c =? 54 then Some Dg6 else if c =? 55 then Some Dg7
  else if c =? 56 then Some Dg8 else if c =? 57 then Some Dg9
  else None.

(** An excerpt of the tables beyond U+00FF, with CPython's entries for a
    few characters: the letters U+0434 and U+014D, the Arabic-Indic digits
    U+0660..U+0669, the circled digit one U+2460 and the superscript four
    U+2074 (digits for [isdigit], not decimal), the Kelvin sign U+212A
    (lowered to [k]), the dotted capital I U+0130 (lowered to [i] and
    U+0307), and the blanks U+2003 and U+3000.  It serves to evaluate the
    program on texts made of Latin-1 and of these characters, under the
    default limit of [int()]. *)
Definition excerpt_lower_cp (c : N) : str :=
  if c =? 8490 then [107]
  else if c =? 304 then [105; 775]
  else if is_latin1 c then [lower_cp c]
  else [c].

Definition excerpt_decimal (c : N) : option digit :=
  if in_range 1632 1641 c then ascii_digit (c - 1584) else None.

Definition excerpt_space (c : N) : bool := (c =? 8195) || (c =? 12288).

Definition excerpt : interpreter :=
  {| hi_lower := flat_map excerpt_lower_cp;
     hi_word := fun c =>
       (c =? 1076) || (c =? 333) || in_range 1632 1641 c || (c =? 9312)
       || (c =? 8308) || (c =? 8490) || (c =? 304);
     hi_decimal := excerpt_decimal;
     hi_digit := fun c => in_range 1632 1641 c || (c =? 9312) || (c =? 8308);
     hi_space := excerpt_space;
     hi_space_not_decimal :=
       ltac:(unfold excerpt_space, excerpt_decimal, in_range; intros c H;
             apply orb_true_iff in H as [H|H]; apply N.eqb_eq in H; subst;
             reflexivity);
     int_max_str_digits := 4300;
     int_max_str_digits_range := or_intror (proj1 (N.leb_le 640 4300) eq_refl) |}.

Section Tables.
Context {T : interpreter}.

(** [s.lower()] *)
Definition lower (s : str) : str :=
  if forallb is_latin1 s then map lower_cp s else hi_lower s.

(** The value of a decimal digit: the digits [\d] of [re] matches and
    [int()] reads. *)
Definition decimal_value (c : N) : option digit :=
  if is_latin1 c then ascii_digit c else hi_decimal c.

Definition is_decimal (c : N) : bool :=
  match decimal_value c with Some _ => true | None => false end.

(** [str.isdigit()] on one character: up to U+00FF the decimal digits and
    the superscripts U+00B2, U+00B3, U+00B9. *)
Definition is_digit (c : N) : bool :=
  if is_latin1 c
  then in_range 48 57 c || (c =? 178) || (c =? 179) || (c =? 185)
  else hi_digit c.

(** [\w] of [re] on a [str] pattern: alphanumerics and the underscore. *)
Definition is_word (c : N) : bool :=
  if is_latin1 c
  then in_range 48 57 c || in_range 65 90 c || (c =? 95) || in_range 97 122 c
       || (c =? 170) || (c =? 178) || (c =? 179) || (c =? 181) || (c =? 185)
       || (c =? 186) || in_range 188 190 c
       || in_range 192 214 c || in_range 216 246 c || in_range 248 255 c
  else hi_word c.

(** [str.isspace()] on one character, as [split()] and [strip()] use it. *)
Definition is_space (c : N) : bool :=
  if is_latin1 c
  then in_range 9 13 c || in_range 28 31 c || (c =? 32) || (c =? 133) || (c =? 160)
  else hi_space c.

(** The blanks [int()] drops around a literal: the blanks of C among the
    ASCII characters, those of [str.isspace()] beyond. *)
Definition is_int_space (c : N) : bool :=
  if is_latin1 c
  then in_range 9 13 c || (c =? 32) || (c =? 133) || (c =? 160)
  else hi_space c.

End Tables.

Fixpoint str_eqb (a b : str) : bool :=
  match a, b with
  | [], [] => true
  | x :: a', y :: b' => (x =? y) && str_eqb a' b'
  | _, _ => false
  end.

Definition is_empty (s : str) : bool :=
  match s with [] => true | _ => false end.

Fixpoint startswith (p s : str) : bool :=
  match p, s with
  | [], _ => true
  | x :: p', y :: s' => (x =? y) && startswith p' s'
  | _ :: _, [] => false
  end.

(** [p in s]. *)
Fixpoint str_in (p s : str) : bool :=
  startswith p s || match s with [] => false | _ :: s' => str_in p s' end.

Definition endswith (p s : str) : bool := startswith (rev p) (rev s).

(** [s.replace(c, '')] for a one-character [c]. *)
Definition remove_char (c : N) (s : str) : str :=
  filter (fun x => negb (x =? c)) s.

Fixpoint drop_while (f : N -> bool) (s : str) : str :=
  match s with
  | [] => []
  | c :: r => if f c then drop_while f r else s
  end.

Definition strip_with (f : N -> bool) (s : str) : str :=
  rev (drop_while f (rev (drop_while f s))).

Section Blanks.
Context {T : interpreter}.

(** [s.strip()]. *)
Definition strip (s : str) : str := strip_with is_space s.

(** [s.split()]: the maximal runs of non-blank characters. *)
Fixpoint split_acc (cur : str) (s : str) : list str :=
  match s with
  | [] => if is_empty cur then [] else [rev cur]
  | c :: r =>
      if is_space c
      then (if is_empty cur then split_acc [] r else rev cur :: split_acc [] r)
      else split_acc (c :: cur) r
  end.

Definition split (s : str) : list str := split_acc [] s.

End Blanks.

(** [sep.join(parts)]. *)
Fixpoint join (sep : str) (parts : list str) : str :=
  match parts with
  | [] => []
  | [p] => p
  | p :: rest => p ++ sep ++ join sep rest
  end.

Section Int.
Context {T : interpreter}.

(** The digits of an [int()] literal after blanks and sign: decimal digits
    of any script, single underscores allowed between two digits. *)
Fixpoint digits_acc (acc : Z) (after_digit : bool) (s : str) : option Z :=
  match s with
  | [] => if after_digit then Some acc else None
  | c :: r =>
      match decimal_value c with
      | Some d => digits_acc (10 * acc + digit_val d) true r
      | None =>
          if c =? 95 then (if after_digit then digits_acc acc false r else None)
          else None
      end
  end.

(** An [int()] literal, the blanks around it dropped: a sign and the
    digits. *)
Definition int_literal (t : str) : option Z :=
  match t with
  | c :: r =>
      if c =? 45 then option_map Z.opp (digits_acc 0 false r)
      else if c =? 43 then digits_acc 0 false r
      else digits_acc 0 false t
  | [] => None
  end.

(** Whether a literal of [n] digits is beyond the limit of the
    interpreter. *)
Definition too_long (n : N) : bool :=
  negb (int_max_str_digits =? 0) && (int_max_str_digits <? n).

(** [int(s)]; [None] stands for [ValueError], which is also what a literal
    of too many digits (leading zeros counted, underscores not) gets. *)
Definition int (s : str) : option Z :=
  let t := strip_with is_int_space s in
  if too_long (N.of_nat (List.length (filter is_decimal t))) then None
  else int_literal t.

End Int.

Fixpoint uint_str (d : Decimal.uint) : str :=
  match d with
  | Decimal.Nil => []
  | Decimal.D0 d => 48 :: uint_str d
  | Decimal.D1 d => 49 :: uint_str d
  | Decimal.D2 d => 50 :: uint_str d
  | Decimal.D3 d => 51 :: uint_str d
  | Decimal.D4 d => 52 :: uint_str d
  | Decimal.D5 d => 53 :: uint_str d
  | Decimal.D6 d => 54 :: uint_str d
  | Decimal.D7 d => 55 :: uint_str d
  | Decimal.D8 d => 56 :: uint_str d
  | Decimal.D9 d => 57 :: uint_str d
  end.

(** [str(z)] for an integer [z]. *)
Definition of_int (z : Z) : str :=
  match Z.to_int z with
  | Decimal.Pos d => uint_str d
  | Decimal.Neg d => 45 :: uint_str d
  end.

(** [l[:k]], a negative [k] counting from the end. *)
Definition slice_to {A} (l : list A) (k : Z) : list A :=
  if (0 <=? k)%Z then firstn (Z.to_nat k) l
  else firstn (Z.to_nat (Z.of_nat (List.length l) + k)) l.

End Py.

Import Py.

(* ================================================================== *)
(** ** Exceptions *)

Inductive exn := ValueError | KeyError | UnboundLocalError.

Inductive result (A : Type) :=
| Ok (a : A)
| Raise (e : exn).
Arguments Ok {A} a.
Arguments Raise {A} e.

Definition bind {A B} (r : result A) (f : A -> result B) : result B :=
  match r with
  | Ok a => f a
  | Raise e => Raise e
  end.

Notation "x <- c1 ;; c2" := (bind c1 (fun x => c2))
  (at level 61, c1 at next level, right associativity).

Fixpoint mapM {A B} (f : A -> result B) (l : list A) : result (list B) :=
  match l with
  | [] => Ok []
  | x :: r => y <- f x ;; ys <- mapM f r ;; Ok (y :: ys)
  end.

(** Everything below is stated for whatever the tables above U+00FF and the
    limit of [int()] are. *)
Section Assistant.
Context {T : interpreter}.

(* ================================================================== *)
(** ** The fragment of [re] the program uses *)

Inductive regex :=
| Lit (s : str)          (* an escaped literal *)
| Dig                    (* \d *)
| Bnd                    (* \b *)
| Seq (a b : regex)
| Alt (a b : regex)      (* a|b *)
| Opt (a : regex).       (* a? *)

Definition word_opt (c : option N) : bool :=
  match c with Some x => is_word x | None => false end.

Fixpoint lit_match (l : str) (prev : option N) (s : str) : option (option N * str) :=
  match l with
  | [] => Some (prev, s)
  | x :: l' =>
      match s with
      | y :: s' => if x =? y then lit_match l' (Some y) s' else None
      | [] => None
      end
  end.

(** Backtracking match of [r] at the current position: [prev] is the
    character before it, [s] the text from it on, [k] what has to match
    afterwards.  The result is the text left after the whole match. *)
Fixpoint rmatch (r : regex) (prev : option N) (s : str)
    (k : option N -> str -> option str) : option str :=
  match r with
  | Lit l =>
      match lit_match l prev s with
      | Some (p, s') => k p s'
      | None => None
      end
  | Dig =>
      match s with
      | c :: s' => if is_decimal c then k (Some c) s' else None
      | [] => None
      end
  | Bnd => if xorb (word_opt prev) (word_opt (hd_error s)) then k prev s else None
  | Seq a b => rmatch a prev s (fun p s' => rmatch b p s' k)
  | Alt a b =>
      match rmatch a prev s k with
      | Some rest => Some rest
      | None => rmatch b prev s k
      end
  | Opt a =>
      match rmatch a prev s k with
      | Some rest => Some rest
      | None => k prev s
      end
  end.

Definition match_here (r : regex) (prev : option N) (s : str) : option str :=
  rmatch r prev s (fun _ rest => Some rest).

(** [re.search(r, s)]: the text of the leftmost match ([group(0)]). *)
Fixpoint search_from (r : regex) (prev : option N) (s : str) : option str :=
  match match_here r prev s with
  | Some rest => Some (firstn (List.length s - List.length rest)%nat s)
  | None =>
      match s with
      | [] => None
      | c :: s' => search_from r (Some c) s'
      end
  end.

Definition re_search (r : regex) (s : str) : option str := search_from r None s.

Definition re_test (r : regex) (s : str) : bool :=
  match re_search r s with Some _ => true | None => false end.

(* ================================================================== *)
(** ** Dictionaries of strings *)

Definition dict := list (str * str).

Fixpoint dict_get (k : str) (d : dict) : option str :=
  match d with
  | [] => None
  | (k', v) :: r => if str_eqb k' k then Some v else dict_get k r
  end.

(** [k in d]. *)
Definition dict_mem (k : str) (d : dict) : bool :=
  match dict_get k d with Some _ => true | None => false end.

(** [d[k] = v]: the value is replaced in place, a new key goes last. *)
Fixpoint dict_set (k v : str) (d : dict) : dict :=
  match d with
  | [] => [(k, v)]
  | (k', v') :: r =>
      if str_eqb k' k then (k', v) :: r else (k', v') :: dict_set k v r
  end.

Definition dict_keys (d : dict) : list str := map fst d.

(** [not d]. *)
Definition dict_is_empty (d : dict) : bool :=
  match d with [] => true | _ => false end.

(* ================================================================== *)
(** ** Provided data *)

Record movie := Movie {
  title : str;
  genre : str;
  release_year : Z;
  director : str;
  language : str;
  keywords : list str
}.

Definition inception : movie :=
  Movie (u "Inception") (u "Sci-Fi/Action") 2010 (u "Christopher Nolan") (u "English")
        [u "dream"; u "thriller"; u "mind-bending"; u "heist"].
Definition parasite : movie :=
  Movie (u "Parasite") (u "Drama/Thriller") 2019 (u "Bong Joon Ho") (u "Korean")
        [u "family"; u "social commentary"; u "dark comedy"; u "serious"].
Definition the_avengers : movie :=
  Movie (u "The Avengers") (u "Sci-Fi/Action") 2012 (u "Joss Whedon") (u "English")
        [u "superhero"; u "Marvel"; u "team-up"; u "blockbuster"].
Definition la_la_land : movie :=
  Movie (u "La La Land") (u "Musical/Romance") 2016 (u "Damien Chazelle") (u "English")
        [u "music"; u "love"; u "dream"; u "emotional"].
Definition the_dark_knight : movie :=
  Movie (u "The Dark Knight") (u "Action/Drama") 2008 (u "Christopher Nolan") (u "English")
        [u "superhero"; u "DC"; u "philosophical"; u "serious"; u "gritty"].

Definition MOVIE_DB : list movie :=
  [inception; parasite; the_avengers; la_la_land; the_dark_knight].

(** The slot names, as the keys of the program's dictionaries. *)
Definition k_genre : str := Eval vm_compute in u "genre".
Definition k_mood : str := Eval vm_compute in u "mood".
Definition k_release_era : str := Eval vm_compute in u "release_era".
Definition k_director : str := Eval vm_compute in u "director".
Definition k_language : str := Eval vm_compute in u "language".
Definition k_runtime : str := Eval vm_compute in u "runtime".

Definition DEFINED_SLOTS : dict :=
  [ (k_genre, u "The genre of the movie (e.g., Action, Drama, Romance, Sci-Fi, Comedy).");
    (k_mood, u "The desired mood for the movie (e.g., fun, dark, emotional, thought-provoking).");
    (k_release_era, u "Approximate release era (e.g., 1990s, 2000s, 2010s, modern).");
    (k_director, u "Prefer a film by a specific director.");
    (k_language, u "Preferred language of the movie (e.g., English, Korean).");
    (k_runtime, u "Preferred runtime (short < 100 min, medium 100-140, long > 140).") ].

Definition GENRE_SYNONYMS : dict :=
  [ (u "sci-fi", u "Sci-Fi");
    (u "science fiction", u "Sci-Fi");
    (u "science-fiction", u "Sci-Fi");
    (u "action", u "Action");
    (u "drama", u "Drama");
    (u "romance", u "Romance");
    (u "musical", u "Musical");
    (u "comedy", u "Comedy");
    (u "thriller", u "Thriller");
    (u "superhero", u "Sci-Fi/Action") ].

Definition MOOD_KEYWORDS : list (str * list str) :=
  [ (u "fun", [u "fun"; u "light"; u "funny"; u "laugh"; u "comedic"; u "entertaining"]);
    (u "serious", [u "serious"; u "dark"; u "grim"; u "heavy"; u "thoughtful"; u "dramatic"]);
    (u "emotional", [u "emotional"; u "touching"; u "tear"; u "sad"; u "romantic"]);
    (u "mind-bending", [u "mind-bending"; u "twisty"; u "puzzling"; u "complex"]);
    (u "blockbuster", [u "blockbuster"; u "epic"; u "big"; u "spectacle"]) ].

(** Each era with the bounds of its [range(lo, hi)]. *)
Definition ERA_KEYWORDS : list (str * (Z * Z)) :=
  [ (u "1990s", (1990, 2000)%Z);
    (u "2000s", (2000, 2010)%Z);
    (u "2010s", (2010, 2020)%Z);
    (u "2020s", (2020, 2030)%Z);
    (u "classic", (1900, 1990)%Z) ].

Fixpoint era_range (k : str) (t : list (str * (Z * Z))) : option (Z * Z) :=
  match t with
  | [] => None
  | (k', r) :: t' => if str_eqb k' k then Some r else era_range k t'
  end.

(* ================================================================== *)
(** ** Task 2: slot identification *)

(** [r'\b' + re.escape(key) + r'\b'] *)
Definition word_re (key : str) : regex := Seq Bnd (Seq (Lit key) Bnd).

(** [r'\b(19|20)\d{2}\b'] *)
Definition year_re : regex :=
  Seq Bnd (Seq (Alt (Lit (u "19")) (Lit (u "20"))) (Seq Dig (Seq Dig Bnd))).

Definition opt_space : regex := Opt (Lit (u " ")).

(** [r'\b(short|under ?1 ?hr|< ?60|min)\b'] *)
Definition short_re : regex :=
  Seq Bnd (Seq
    (Alt (Lit (u "short"))
    (Alt (Seq (Lit (u "under")) (Seq opt_space (Seq (Lit (u "1")) (Seq opt_space (Lit (u "hr"))))))
    (Alt (Seq (Lit (u "<")) (Seq opt_space (Lit (u "60"))))
         (Lit (u "min")))))
    Bnd).

(** [r'\b(long|epic|over ?2 ?hr|> ?120|min)\b'] *)
Definition long_re : regex :=
  Seq Bnd (Seq
    (Alt (Lit (u "long"))
    (Alt (Lit (u "epic"))
    (Alt (Seq (Lit (u "over")) (Seq opt_space (Seq (Lit (u "2")) (Seq opt_space (Lit (u "hr"))))))
    (Alt (Seq (Lit (u ">")) (Seq opt_space (Lit (u "120"))))
         (Lit (u "min"))))))
    Bnd).

(** Genre detection: the first synonym found as a whole word. *)
Definition detect_genre (text : str) (filled : dict) : dict :=
  match find (fun kv => re_test (word_re (fst kv)) text) GENRE_SYNONYMS with
  | Some (_, val) => dict_set k_genre val filled
  | None => filled
  end.

(** Mood detection: the first mood one of whose keywords occurs in the text. *)
Definition detect_mood (text : str) (filled : dict) : dict :=
  match find (fun mk => existsb (fun kw => str_in kw text) (snd mk)) MOOD_KEYWORDS with
  | Some (mood, _) => dict_set k_mood mood filled
  | None => filled
  end.

(** Director detection: the first catalog director whose last name or full
    name occurs in the text. *)
Definition detect_director (text : str) (filled : dict) : dict :=
  match find (fun m =>
                let director_lower := lower (director m) in
                let last_name := last (split director_lower) [] in
                str_in last_name text || str_in director_lower text) MOVIE_DB with
  | Some m => dict_set k_director (director m) filled
  | None => filled
  end.

(** Release era detection: a four-digit year of the original input, else the
    first era whose label, or whose label without its ['s'], occurs in the
    text.  [re.findall] is non-empty exactly when [re.search] finds a match. *)
Definition detect_release_era (user_input text : str) (filled : dict) : result dict :=
  match re_search year_re user_input with
  | Some year_match =>
      match int year_match with
      | Some y => Ok (dict_set k_release_era (of_int y) filled)
      | None => Raise ValueError
      end
  | None =>
      match find (fun era => str_in (remove_char 115 era) text || str_in era text)
                 (map fst ERA_KEYWORDS) with
      | Some era => Ok (dict_set k_release_era era filled)
      | None => Ok filled
      end
  end.

(** The catalog loop of the language detection. *)
Definition detect_language_catalog (text : str) (filled : dict) : dict :=
  match find (fun m =>
                let lang := lower (language m) in
                negb (is_empty lang) && str_in lang text) MOVIE_DB with
  | Some m => dict_set k_language (language m) filled
  | None => filled
  end.

(** The two tests on common language words that follow the loop. *)
Definition detect_language_words (text : str) (filled : dict) : dict :=
  let filled :=
    if str_in (u "korean") text then dict_set k_language (u "Korean") filled else filled in
  if str_in (u "english") text then dict_set k_language (u "English") filled else filled.

(** Runtime preference: the short test, then the long one. *)
Definition detect_runtime (text : str) (filled : dict) : dict :=
  let filled :=
    if re_test short_re text then dict_set k_runtime (u "short") filled else filled in
  if re_test long_re text then dict_set k_runtime (u "long") filled else filled.

Definition identify_slots (user_input : str) : result (dict * list str) :=
  let text := lower user_input in
  let filled : dict := [] in
  let filled := detect_genre text filled in
  let filled := detect_mood text filled in
  let filled := detect_director text filled in
  filled <- detect_release_era user_input text filled ;;
  let filled := detect_language_catalog text filled in
  let filled := detect_language_words text filled in
  let filled := detect_runtime text filled in
  let missing := filter (fun s => negb (dict_mem s filled)) (dict_keys DEFINED_SLOTS) in
  Ok (filled, missing).

(* ================================================================== *)
(** ** Task 2: retrieval *)

(** [s.isdigit()] *)
Definition isdigit (s : str) : bool := negb (is_empty s) && forallb is_digit s.

(** [y in range(lo, hi)] *)
Definition in_era (r : option (Z * Z)) (y : Z) : bool :=
  match r with
  | Some (lo, hi) => ((lo <=? y) && (y <? hi))%Z
  | None => false
  end.

(** The release-era part of the score: what is added for the value [val].
    The [int] of the [except] branch is outside the [try]: its [ValueError]
    leaves the function. *)
Definition era_points (val : str) (m : movie) : result Z :=
  match int val with
  | Some y =>
      if (release_year m =? y)%Z then Ok 3%Z
      else if (release_year m / 10 =? y / 10)%Z then Ok 2%Z
      else Ok 0%Z
  | None =>
      if endswith (u "s") val then
        decade <- (if (4 <=? List.length val)%nat && isdigit (firstn 4 val)
                   then match int (firstn 4 val) with
                        | Some d => Ok (Some d)
                        | None => Raise ValueError
                        end
                   else Ok None) ;;
        match decade with
        | Some d =>
            if negb (d =? 0)%Z && in_era (era_range val ERA_KEYWORDS) (release_year m)
            then Ok 2%Z else Ok 0%Z
        | None => Ok 0%Z
        end
      else Ok 0%Z
  end.

(** The mood part of the score: one point per keyword of the movie that
    contains the mood or one of its words, one more for the title. *)
Definition mood_points (mood : str) (m : movie) : Z :=
  let per_kw :=
    fold_left (fun score kw =>
                 if str_in mood (lower kw)
                    || existsb (fun w => str_in w (lower kw)) (split mood)
                 then (score + 1)%Z else score)
              (keywords m) 0%Z in
  if str_in mood (lower (title m)) then (per_kw + 1)%Z else per_kw.

Definition _score_movie_against_slots (m : movie) (filled_slots : dict) : result Z :=
  let score := 0%Z in
  let score :=
    match dict_get k_genre filled_slots with
    | Some g => if str_in (lower g) (lower (genre m)) then (score + 3)%Z else score
    | None => score
    end in
  let score :=
    match dict_get k_director filled_slots with
    | Some d => if str_eqb (lower d) (lower (director m)) then (score + 4)%Z else score
    | None => score
    end in
  let score :=
    match dict_get k_language filled_slots with
    | Some l => if str_eqb (lower (language m)) (lower l) then (score + 2)%Z else score
    | None => score
    end in
  score <- match dict_get k_release_era filled_slots with
           | Some val => p <- era_points val m ;; Ok (score + p)%Z
           | None => Ok score
           end ;;
  let score :=
    match dict_get k_mood filled_slots with
    | Some mood => (score + mood_points mood m)%Z
    | None => score
    end in
  Ok score.

(** [sorted(l, key=..., reverse=True)]: descending and stable, [lt] being
    the strict order of the keys. *)
Fixpoint insert_desc {A} (lt : A -> A -> bool) (x : A) (l : list A) : list A :=
  match l with
  | [] => [x]
  | y :: r => if lt x y then y :: insert_desc lt x r else x :: l
  end.

Definition sorted_rev {A} (lt : A -> A -> bool) (l : list A) : list A :=
  fold_right (insert_desc lt) [] l.

(** The order of the keys [(score, release_year)]. *)
Definition scored_lt (a b : Z * movie) : bool :=
  ((fst a <? fst b) || ((fst a =? fst b) && (release_year (snd a) <? release_year (snd b))))%Z.

Definition year_lt (a b : movie) : bool := (release_year a <? release_year b)%Z.

Definition is_nil {A} (l : list A) : bool :=
  match l with [] => true | _ => false end.

Definition retrieve_candidates (filled_slots : dict) (top_k : Z) : result (list movie) :=
  if dict_is_empty filled_slots then Ok (slice_to MOVIE_DB top_k)
  else
    scored <- mapM (fun m => score <- _score_movie_against_slots m filled_slots ;;
                             Ok (score, m)) MOVIE_DB ;;
    let scored_sorted := sorted_rev scored_lt scored in
    let top := slice_to (map snd (filter (fun sm => (fst sm >? 0)%Z) scored_sorted)) top_k in
    if is_nil top
    then Ok (slice_to (sorted_rev year_lt MOVIE_DB) top_k)
    else Ok top.

(* ================================================================== *)
(** ** Tasks 1 and 3: the prompt *)

Definition nl : str := [10].

Definition SYSTEM_PROMPT : str :=
  nl ++ u "You are a friendly and knowledgeable movie expert. You ask smart, concise clarifying questions that help users get a tailored movie suggestion."
  ++ nl ++ u "Constraints:"
  ++ nl ++ u "- Always ask at least one clarifying question before recommending a final movie title."
  ++ nl ++ u "- Keep tone warm, brief and professional."
  ++ nl ++ u "- When possible, prefer single, specific clarifying questions that are easy to answer (yes/no or short phrases)."
  ++ nl.

(** Each example as [(input, output)]. *)
Definition FEW_SHOT_EXAMPLES : list (str * str) :=
  [ (u "I liked the new Nolan movie.",
     u "Christopher Nolan's films are fantastic! To help me narrow it down, are you in the mood for a more thoughtful thriller (e.g., Inception) or a darker, gritty superhero drama (e.g., The Dark Knight)?");
    (u "Something romantic but upbeat.",
     u "Nice — do you prefer musicals (songs integrated in story) or romantic comedies (lighthearted, modern)? A one-word answer like 'musical' or 'rom-com' is perfect.") ].

(** A candidate as the prompt builder reads it: a dictionary of which it
    reads four keys, each present or not.  The values are strings, integers
    or [None]; a catalog movie has a string under ["title"], ["genre"] and
    ["director"] and an integer under ["release_year"], a caller's dictionary
    may leave keys out. *)
Inductive value :=
| VStr (s : str)
| VInt (z : Z)
| VNone.

Record entry := Entry {
  e_title : option value;
  e_release_year : option value;
  e_genre : option value;
  e_director : option value
}.

(** A catalog movie as such a dictionary: all four keys are present. *)
Definition entry_of (m : movie) : entry :=
  Entry (Some (VStr (title m))) (Some (VInt (release_year m)))
        (Some (VStr (genre m))) (Some (VStr (director m))).

(** [c.get(key)]: [None] for a key that is not there. *)
Definition get (o : option value) : value :=
  match o with Some v => v | None => VNone end.

(** A value inside an f-string. *)
Definition show (v : value) : str :=
  match v with
  | VStr s => s
  | VInt z => of_int z
  | VNone => u "None"
  end.

(** One line of [_format_candidates_for_prompt]; [c['title']] raises
    [KeyError] for a dictionary without title. *)
Definition candidate_line (c : entry) : result str :=
  match e_title c with
  | Some t =>
      Ok (u "- " ++ show t ++ u " (" ++ show (get (e_release_year c))
          ++ u ") — genre: " ++ show (get (e_genre c))
          ++ u ", director: " ++ show (get (e_director c)))
  | None => Raise KeyError
  end.

Definition _format_candidates_for_prompt (candidates : list entry) : result str :=
  if is_nil candidates then Ok (u "No strong candidates found in the local DB.")
  else lines <- mapM candidate_line candidates ;; Ok (join nl lines).

Definition INSTRUCTION : str :=
  nl ++ u "INSTRUCTION (A): You are the assistant. Based on the information above, ask exactly one concise, specific clarifying question that will most improve the recommendation. The question should be easy to answer (one or two words ideally). Do NOT recommend a movie yet. If all slots are already thoroughly filled, ask for a final small confirmation (e.g., 'Do you prefer something gritty or light?').".

Definition build_dynamic_prompt (user_input : str) (filled_slots : dict)
    (candidates : list entry) : result str :=
  let prompt_parts :=
    [strip SYSTEM_PROMPT; nl ++ u "FEW-SHOT EXAMPLES:"]
    ++ map (fun ex => u "User: " ++ fst ex ++ nl ++ u "Assistant: " ++ snd ex ++ nl)
           FEW_SHOT_EXAMPLES
    ++ [u "USER REQUEST:"; strip user_input; u "IDENTIFIED SLOTS:"]
    ++ (if dict_is_empty filled_slots then [u "- (none identified)"]
        else map (fun kv => u "- " ++ fst kv ++ u ": " ++ snd kv) filled_slots) in
  formatted <- _format_candidates_for_prompt candidates ;;
  Ok (join (nl ++ nl)
           (prompt_parts ++ [u "RETRIEVED CANDIDATES (R):"; formatted; INSTRUCTION])).

(* ================================================================== *)
(** ** Main logic *)

Definition Q_genre : str :=
  u "Sure — what genre are you in the mood for? (e.g., Action, Drama, Comedy, Romance)".
Definition Q_mood : str :=
  u "Would you like something more light/fun or more serious/intense?".
Definition Q_release_era : str :=
  u "Any preference for release era — classic, 1990s, 2000s, 2010s, or recent?".
Definition Q_director : str :=
  u "Do you prefer a specific director or filmmaker? If yes, name them (e.g., Nolan).".
Definition Q_language : str :=
  u "Do you have a preferred language? (e.g., English, Korean, Spanish)".
Definition Q_runtime : str :=
  u "Do you prefer a short (<100 min), medium (100-140 min), or long (>140 min) movie?".
Definition Q_action : str :=
  u "Great — for action, do you want something gritty/realistic or a fun blockbuster?".
Definition Q_same_director (d : str) : str :=
  u "Do you want something by " ++ d ++ u " specifically, or films with a similar tone?".
Definition Q_mood_strength (mood : str) : str :=
  u "You mentioned '" ++ mood ++ u "'. Would you prefer a milder or a stronger version of that mood?".
Definition Q_newer : str :=
  u "Thanks — one quick check: do you prefer newer releases or are older films okay?".
Definition Q_starter : str :=
  u "Got it — to start, what type of movie would you like (genre, mood, or director)?".

Definition priority : list str :=
  [k_genre; k_mood; k_release_era; k_director; k_language; k_runtime].

(** [p in missing_slots] *)
Definition list_mem (p : str) (l : list str) : bool := existsb (str_eqb p) l.

(** The chain of tests on [slot_to_ask]; [None] when none of them returns. *)
Definition question_for (slot_to_ask : str) : option str :=
  if str_eqb slot_to_ask k_genre then Some Q_genre
  else if str_eqb slot_to_ask k_mood then Some Q_mood
  else if str_eqb slot_to_ask k_release_era then Some Q_release_era
  else if str_eqb slot_to_ask k_director then Some Q_director
  else if str_eqb slot_to_ask k_language then Some Q_language
  else if str_eqb slot_to_ask k_runtime then Some Q_runtime
  else None.

(** The branch [if missing_slots:].  [slot_to_ask] is bound by the first
    priority found in [missing_slots]; reading it unbound raises. *)
Definition ask_missing (missing_slots : list str) : result (option str) :=
  if is_nil missing_slots then Ok None
  else
    match find (fun p => list_mem p missing_slots) priority with
    | Some slot_to_ask => Ok (question_for slot_to_ask)
    | None => Raise UnboundLocalError
    end.

(** The confirmation question asked when no question was returned above. *)
Definition confirm (filled_slots : dict) : result str :=
  if negb (dict_is_empty filled_slots) then
    if match dict_get k_genre filled_slots with
       | Some g => negb (is_empty g) && str_in (u "Action") g
       | None => false
       end
    then Ok Q_action
    else if dict_mem k_director filled_slots then
      match dict_get k_director filled_slots with
      | Some d => Ok (Q_same_director d)
      | None => Raise KeyError
      end
    else if dict_mem k_mood filled_slots then
      match dict_get k_mood filled_slots with
      | Some mood => Ok (Q_mood_strength mood)
      | None => Raise KeyError
      end
    else Ok Q_newer
  else Ok Q_starter.

Definition get_ai_response (user_input : str) : result str :=
  slots <- identify_slots user_input ;;
  let filled_slots := fst slots in
  let missing_slots := snd slots in
  candidates <- retrieve_candidates filled_slots 3 ;;
  final_prompt <- build_dynamic_prompt user_input filled_slots
                    (map entry_of candidates) ;;
  asked <- ask_missing missing_slots ;;
  match asked with
  | Some question => Ok question
  | None => confirm filled_slots
  end.

(* ================================================================== *)
(** ** Notions the statements use *)

Definition slot_names : list str := dict_keys DEFINED_SLOTS.

Definition missing_of (filled : dict) : list str :=
  filter (fun s => negb (dict_mem s filled)) slot_names.

Definition era_faults (val : str) : bool :=
  match int val with
  | Some _ => false
  | None =>
      endswith (u "s") val && (4 <=? List.length val)%nat && isdigit (firstn 4 val)
      && match int (firstn 4 val) with Some _ => false | None => true end
  end.

Definition era_ok (filled_slots : dict) : bool :=
  match dict_get k_release_era filled_slots with
  | Some val => negb (era_faults val)
  | None => true
  end.

(** What [identify_slots] does after the release era: language, runtime
    and the list of missing slots. *)
Definition finish_slots (text : str) (filled : dict) : dict * list str :=
  let filled := detect_language_catalog text filled in
  let filled := detect_language_words text filled in
  let filled := detect_runtime text filled in
  (filled, missing_of filled).

(** Whether the text before, or after, an occurrence touches it with a word
    character. *)
Definition ends_in_word (pre : str) : bool := word_opt (last (map Some pre) None).
Definition starts_with_word (post : str) : bool := word_opt (hd_error post).

Definition six_questions : list str :=
  [Q_genre; Q_mood; Q_release_era; Q_director; Q_language; Q_runtime].

(** The catalog from the most recent movie to the oldest. *)
Definition by_year_desc : list movie :=
  [parasite; la_la_land; the_avengers; inception; the_dark_knight].

(** The invariant of the slot extractor: the keys are slot names and the
    release era is a value the ranker's era score accepts. *)
Definition slots_inv (d : dict) : Prop :=
  (forall k, In k (dict_keys d) -> In k slot_names) /\ era_ok d = true.

(** Whether no catalog entry scores above 0 for the mapping. *)
Definition no_positive_score (filled_slots : dict) : bool :=
  forallb (fun m => match _score_movie_against_slots m filled_slots with
                    | Ok z => (z <=? 0)%Z
                    | Raise _ => false
                    end) MOVIE_DB.

(** The score of a movie, read as 0 where the scoring raises. *)
Definition score_of (filled_slots : dict) (m : movie) : Z :=
  match _score_movie_against_slots m filled_slots with
  | Ok z => z
  | Raise _ => 0%Z
  end.

(** [a] is not ranked below [b]: its key [(score, release_year)] is not the
    smaller one. *)
Definition ranks_before (filled_slots : dict) (a b : movie) : Prop :=
  scored_lt (score_of filled_slots a, a) (score_of filled_slots b, b) = false.

(** The movies with a positive score, best first: what [retrieve_candidates]
    slices when the scoring does not raise. *)
Definition positives (filled_slots : dict) : list movie :=
  map snd (filter (fun sm => (fst sm >? 0)%Z)
                  (sorted_rev scored_lt
                     (map (fun m => (score_of filled_slots m, m)) MOVIE_DB))).

(** The text of a year as the extractor stores it: ["19"] or ["20"] and
    two ASCII digits. *)
Definition is_year_text (v : str) : bool :=
  match v with
  | [a; b; c; d] =>
      (((a =? 49) && (b =? 57)) || ((a =? 50) && (b =? 48)))
      && in_range 48 57 c && in_range 48 57 d
  | _ => false
  end.

(** The values the extractor can store under each slot name. *)
Definition allowed_value (k v : str) : Prop :=
  (k = k_genre /\ In v (map snd GENRE_SYNONYMS))
  \/ (k = k_mood /\ In v (map fst MOOD_KEYWORDS))
  \/ (k = k_director /\ In v (map director MOVIE_DB))
  \/ (k = k_release_era /\ (In v (map fst ERA_KEYWORDS) \/ is_year_text v = true))
  \/ (k = k_language /\ In v [u "English"; u "Korean"])
  \/ (k = k_runtime /\ In v [u "short"; u "long"]).

(** [key] occurs in [text] as a whole word: no word character directly
    before or after the occurrence. *)
Definition whole_word_in (key text : str) : Prop :=
  exists pre post,
    text = pre ++ key ++ post
    /\ ends_in_word pre = false /\ starts_with_word post = false.

(** The first and the last character of a key are word characters, as they
    are for every key of [GENRE_SYNONYMS]. *)
Definition word_delimited (key : str) : bool :=
  word_opt (hd_error key) && word_opt (last (map Some key) None).

(** [l] without its last [n] entries: the slice [l[:-n]] for [n > 0]. *)
Definition drop_last {A} (n : nat) (l : list A) : list A :=
  firstn (List.length l - n) l.


(* ================================================================== *)
(** ** Strings and dictionaries: basic facts *)

Lemma str_eqb_refl (a : str) : str_eqb a a = true.
Proof.
  induction a as [|x a IH]; simpl; [reflexivity|].
  now rewrite N.eqb_refl.
Qed.

Lemma str_eqb_eq (a b : str) : str_eqb a b = true <-> a = b.
Proof.
  split.
  - revert b; induction a as [|x a IH]; intros [|y b] H; simpl in H;
      try discriminate; [reflexivity|].
    apply andb_true_iff in H as [Hx Hr].
    apply N.eqb_eq in Hx. apply IH in Hr. now subst.
  - intros ->. apply str_eqb_refl.
Qed.

Lemma str_eqb_neq (a b : str) : str_eqb a b = false <-> a <> b.
Proof.
  split.
  - intros H E. apply str_eqb_eq in E. congruence.
  - intros H. destruct (str_eqb a b) eqn:E; [|reflexivity].
    apply str_eqb_eq in E. contradiction.
Qed.

Lemma dict_get_set_same (k v : str) (d : dict) :
  dict_get k (dict_set k v d) = Some v.
Proof.
  induction d as [|[k' v'] d IH]; simpl.
  - now rewrite str_eqb_refl.
  - destruct (str_eqb k' k) eqn:E; simpl; now rewrite E.
Qed.

Lemma dict_get_set_other (k k0 v : str) (d : dict) :
  k0 <> k -> dict_get k (dict_set k0 v d) = dict_get k d.
Proof.
  intros Hne. induction d as [|[k' v'] d IH]; simpl.
  - apply str_eqb_neq in Hne. now rewrite Hne.
  - destruct (str_eqb k' k0) eqn:E0; simpl.
    + apply str_eqb_eq in E0. subst k'.
      apply str_eqb_neq in Hne. now rewrite Hne.
    + now rewrite IH.
Qed.

Lemma dict_keys_set (k v : str) (d : dict) (x : str) :
  In x (dict_keys (dict_set k v d)) -> x = k \/ In x (dict_keys d).
Proof.
  induction d as [|[k' v'] d IH]; simpl.
  - intros [<-|[]]. now left.
  - destruct (str_eqb k' k) eqn:E; simpl.
    + intros [<-|H]; right; auto.
    + intros [<-|H]; [right; now left|].
      destruct (IH H) as [->|H']; [now left | right; now right].
Qed.

Lemma dict_mem_keys (k : str) (d : dict) :
  dict_mem k d = true <-> In k (dict_keys d).
Proof.
  unfold dict_mem. induction d as [|[k' v'] d IH]; simpl.
  - split; [discriminate | tauto].
  - destruct (str_eqb k' k) eqn:E.
    + apply str_eqb_eq in E. subst. split; auto.
    + rewrite IH. apply str_eqb_neq in E. split; [auto | intros [H|H]; [contradiction|auto]].
Qed.

Lemma find_In {A} (f : A -> bool) (l : list A) (x : A) :
  find f l = Some x -> In x l.
Proof. intros H. apply find_some in H. tauto. Qed.

Lemma startswith_app (p s : str) : startswith p (p ++ s) = true.
Proof.
  induction p as [|x p IH]; simpl; [reflexivity|].
  now rewrite N.eqb_refl.
Qed.

Lemma str_in_app_r (p a b : str) : str_in p b = true -> str_in p (a ++ b) = true.
Proof.
  intros H. induction a as [|x a IH]; simpl; [exact H|].
  rewrite IH. apply orb_true_r.
Qed.

Lemma str_in_app_l (p a b : str) : str_in p (p ++ b) = true.
Proof.
  destruct p as [|x p]; [destruct b; reflexivity|].
  change (str_in (x :: p) ((x :: p) ++ b))
    with (startswith (x :: p) ((x :: p) ++ b) || str_in (x :: p) (p ++ b)).
  now rewrite startswith_app.
Qed.

Lemma ascii_digit_range c d : ascii_digit c = Some d -> in_range 48 57 c = true.
Proof.
  unfold ascii_digit, in_range.
  repeat match goal with
  | |- context [if ?a =? ?b then _ else _] => destruct (N.eqb_spec a b); [subst; reflexivity|]
  end.
  discriminate.
Qed.

Lemma decimal_not_int_space c : is_decimal c = true -> is_int_space c = false.
Proof.
  unfold is_decimal, decimal_value, is_int_space.
  destruct (is_latin1 c).
  - destruct (ascii_digit c) as [d|] eqn:E; [|discriminate]. intros _.
    apply ascii_digit_range in E. unfold in_range in *.
    apply andb_true_iff in E as [H1 H2].
    apply N.leb_le in H1. apply N.leb_le in H2.
    repeat match goal with
    | |- context [?a <=? ?b] => destruct (N.leb_spec a b); try lia
    | |- context [?a =? ?b] => destruct (N.eqb_spec a b); try lia
    end; reflexivity.
  - destruct (hi_space c) eqn:E; [|reflexivity].
    now rewrite (hi_space_not_decimal c E).
Qed.

Lemma decimal_not_sign c :
  is_decimal c = true -> (c =? 45) = false /\ (c =? 43) = false.
Proof.
  unfold is_decimal, decimal_value, is_latin1.
  destruct (N.leb_spec c 255).
  - destruct (ascii_digit c) as [d|] eqn:E; [|discriminate]. intros _.
    apply ascii_digit_range in E. unfold in_range in E.
    apply andb_true_iff in E as [H1 H2].
    apply N.leb_le in H1. apply N.leb_le in H2.
    split; apply N.eqb_neq; lia.
  - intros _. split; apply N.eqb_neq; lia.
Qed.

Lemma drop_while_head f c r : f c = false -> drop_while f (c :: r) = c :: r.
Proof. intros H. simpl. now rewrite H. Qed.

Lemma drop_while_all_false f s :
  forallb (fun c => negb (f c)) s = true -> drop_while f s = s.
Proof.
  destruct s as [|c r]; simpl; [reflexivity|].
  intros H. apply andb_true_iff in H as [H _].
  apply negb_true_iff in H. now rewrite H.
Qed.

Lemma forallb_rev {A} (f : A -> bool) l : forallb f (rev l) = forallb f l.
Proof.
  induction l as [|x l IH]; simpl; [reflexivity|].
  rewrite forallb_app, IH. simpl. rewrite andb_true_r. apply andb_comm.
Qed.

Lemma strip_with_id f s :
  forallb (fun c => negb (f c)) s = true -> strip_with f s = s.
Proof.
  intros H. unfold strip_with.
  rewrite (drop_while_all_false f s H).
  rewrite drop_while_all_false by now rewrite forallb_rev.
  apply rev_involutive.
Qed.

Lemma digits_acc_decimal s : forall acc b,
  forallb is_decimal s = true -> (s <> [] \/ b = true) ->
  exists y, digits_acc acc b s = Some y.
Proof.
  induction s as [|c r IH]; intros acc b Hall Hne; simpl.
  - destruct Hne as [Hne| ->]; [now contradiction Hne | eauto].
  - simpl in Hall. apply andb_true_iff in Hall as [Hc Hr].
    unfold is_decimal in Hc. destruct (decimal_value c); [|discriminate].
    apply IH; auto.
Qed.

Lemma drop_while_length f s : (List.length (drop_while f s) <= List.length s)%nat.
Proof.
  induction s as [|c r IH]; simpl; [lia|].
  destruct (f c); simpl; lia.
Qed.

Lemma strip_with_length f s : (List.length (strip_with f s) <= List.length s)%nat.
Proof.
  unfold strip_with. rewrite length_rev.
  etransitivity; [apply drop_while_length|].
  rewrite length_rev. apply drop_while_length.
Qed.

Lemma filter_length_le {A} (f : A -> bool) l :
  (List.length (filter f l) <= List.length l)%nat.
Proof. induction l as [|x l IH]; simpl; [lia|]. destruct (f x); simpl; lia. Qed.

(** No literal of at most 640 characters is too long for [int]. *)
Lemma too_long_short n : n <= 640 -> too_long n = false.
Proof.
  intros H. unfold too_long.
  destruct int_max_str_digits_range as [->|Hl]; [reflexivity|].
  destruct (N.ltb_spec int_max_str_digits n); [lia|]. apply andb_false_r.
Qed.

Lemma int_short s :
  (List.length s <= 640)%nat -> int s = int_literal (strip_with is_int_space s).
Proof.
  intros H. unfold int. rewrite too_long_short; [reflexivity|].
  pose proof (filter_length_le is_decimal (strip_with is_int_space s)).
  pose proof (strip_with_length is_int_space s). lia.
Qed.

Lemma int_of_decimals s :
  s <> [] -> (List.length s <= 640)%nat -> forallb is_decimal s = true ->
  exists y, int s = Some y.
Proof.
  intros Hne Hlen Hall. rewrite (int_short s Hlen). unfold int_literal.
  rewrite strip_with_id.
  2:{ rewrite forallb_forall in *. intros c Hc. apply negb_true_iff.
      apply decimal_not_int_space. auto. }
  destruct s as [|c r]; [now contradiction Hne|].
  assert (Hc : is_decimal c = true) by (simpl in Hall; now apply andb_true_iff in Hall).
  destruct (decimal_not_sign c Hc) as [-> ->].
  apply digits_acc_decimal; auto.
Qed.

(** Every character [str()] writes for an integer is a digit or the sign. *)
Lemma uint_str_decimal d : forallb is_decimal (uint_str d) = true.
Proof. induction d; simpl; auto. Qed.

Lemma of_int_chars z :
  forallb (fun c => is_decimal c || (c =? 45)) (of_int z) = true.
Proof.
  assert (H : forall d, forallb (fun c => is_decimal c || (c =? 45)) (uint_str d) = true).
  { intros d. induction d; simpl; auto. }
  unfold of_int. destruct (Z.to_int z); simpl; auto.
Qed.

Lemma endswith_char c s :
  forallb (fun x => negb (x =? c)) s = true -> endswith [c] s = false.
Proof.
  intros H. unfold endswith. simpl rev.
  rewrite <- forallb_rev in H.
  destruct (rev s) as [|y r]; simpl; [reflexivity|].
  simpl in H. apply andb_true_iff in H as [H _].
  apply negb_true_iff in H. rewrite N.eqb_sym, H. reflexivity.
Qed.

Lemma of_int_not_label z : endswith (u "s") (of_int z) = false.
Proof.
  change (u "s") with [115]. apply endswith_char.
  pose proof (of_int_chars z) as H. rewrite forallb_forall in *.
  intros c Hc. specialize (H c Hc).
  apply negb_true_iff. apply N.eqb_neq. intros ->. discriminate H.
Qed.

(** *** The year pattern *)

Lemma year_match_here prev s rest :
  match_here year_re prev s = Some rest ->
  exists a b c d, s = a :: b :: c :: d :: rest
    /\ forallb is_decimal [a; b; c; d] = true.
Proof.
  unfold match_here, year_re.
  cbn [rmatch].
  destruct (xorb (word_opt prev) (word_opt (hd_error s))); [|discriminate].
  change (u "19") with [49; 57]. change (u "20") with [50; 48].
  destruct s as [|a [|b [|c [|d s']]]]; cbn [lit_match];
    repeat match goal with
    | |- context [if ?x =? ?y then _ else _] => destruct (N.eqb_spec x y); subst
    | |- context [if is_decimal ?x then _ else _] => destruct (is_decimal x) eqn:?
    | |- context [if xorb ?x ?y then _ else _] => destruct (xorb x y)
    end; try discriminate;
    intros [= <-]; do 4 eexists; (split; [reflexivity|]); cbn [forallb];
    repeat match goal with H : is_decimal _ = true |- _ => rewrite H end; reflexivity.
Qed.

Lemma search_from_eq r prev s :
  search_from r prev s =
  match match_here r prev s with
  | Some rest => Some (firstn (List.length s - List.length rest) s)
  | None => match s with [] => None | c :: s' => search_from r (Some c) s' end
  end.
Proof. destruct s; reflexivity. Qed.

Lemma year_search_decimal s : forall prev g,
  search_from year_re prev s = Some g ->
  List.length g = 4%nat /\ forallb is_decimal g = true.
Proof.
  induction s as [|x s IH]; intros prev g; rewrite search_from_eq;
    destruct (match_here year_re prev _) as [rest|] eqn:E;
    try discriminate; try apply IH.
  all: apply year_match_here in E as (a & b & c & d & E & Hd);
    try discriminate E.
  rewrite E.
  replace (List.length (a :: b :: c :: d :: rest) - List.length rest)%nat with 4%nat
    by (cbn [List.length]; lia).
  cbn [firstn]. intros [= <-]. split; [reflexivity | exact Hd].
Qed.

Lemma year_search_int s g :
  re_search year_re s = Some g -> exists y, int g = Some y.
Proof.
  intros H. apply year_search_decimal in H as [Hlen Hd].
  apply int_of_decimals; [destruct g; [discriminate Hlen | discriminate] | lia | exact Hd].
Qed.

(** *** The release-era score and its fault *)

Lemma era_points_total val m :
  era_faults val = false -> exists p, era_points val m = Ok p.
Proof.
  unfold era_faults, era_points. destruct (int val) as [y|].
  - intros _. destruct (release_year m =? y)%Z; [eauto|].
    destruct (release_year m / 10 =? y / 10)%Z; eauto.
  - destruct (endswith (u "s") val); [|eauto]. cbn [andb].
    destruct ((4 <=? List.length val)%nat && isdigit (firstn 4 val)); cbn [andb bind].
    + destruct (int (firstn 4 val)) as [d|]; [|discriminate].
      intros _. cbn [bind].
      destruct (negb (d =? 0)%Z && in_era (era_range val ERA_KEYWORDS) (release_year m));
        eauto.
    + eauto.
Qed.

Lemma era_points_raises val m :
  era_faults val = true -> era_points val m = Raise ValueError.
Proof.
  unfold era_faults, era_points. destruct (int val) as [y|]; [discriminate|].
  destruct (endswith (u "s") val); [|discriminate]. cbn [andb].
  destruct ((4 <=? List.length val)%nat && isdigit (firstn 4 val)); [|discriminate].
  cbn [andb bind].
  destruct (int (firstn 4 val)); [discriminate | reflexivity].
Qed.

Lemma score_total m d :
  era_ok d = true -> exists z, _score_movie_against_slots m d = Ok z.
Proof.
  unfold era_ok, _score_movie_against_slots. intros H.
  destruct (dict_get k_release_era d) as [val|]; cbn [bind]; [|eauto].
  apply negb_true_iff in H.
  destruct (era_points_total val m H) as [p ->]. cbn [bind]. eauto.
Qed.

Lemma score_raises m d :
  era_ok d = false -> _score_movie_against_slots m d = Raise ValueError.
Proof.
  unfold era_ok, _score_movie_against_slots. intros H.
  destruct (dict_get k_release_era d) as [val|]; [|discriminate].
  apply negb_false_iff in H. now rewrite (era_points_raises val m H).
Qed.

Lemma mapM_total {A B} (f : A -> result B) (l : list A) :
  (forall x, In x l -> exists y, f x = Ok y) ->
  exists ys, mapM f l = Ok ys /\ List.length ys = List.length l.
Proof.
  induction l as [|x l IH]; intros H; cbn [mapM].
  - exists []. split; reflexivity.
  - destruct (H x (or_introl eq_refl)) as [y ->].
    destruct IH as (ys & -> & Hlen); [intros; apply H; now right|].
    cbn [bind]. exists (y :: ys). split; [reflexivity | simpl; now rewrite Hlen].
Qed.

Lemma scored_total d :
  era_ok d = true ->
  exists scored,
    mapM (fun m => score <- _score_movie_against_slots m d ;; Ok (score, m)) MOVIE_DB
    = Ok scored.
Proof.
  intros H.
  destruct (mapM_total
              (fun m => score <- _score_movie_against_slots m d ;; Ok (score, m))
              MOVIE_DB) as (ys & E & _); [|eauto].
  intros m _. destruct (score_total m d H) as [z ->]. cbn [bind]. eauto.
Qed.

(** *** Slices *)

Lemma slice_to_length {A} (l : list A) (k : Z) :
  (0 <= k)%Z -> List.length (slice_to l k) = Nat.min (Z.to_nat k) (List.length l).
Proof.
  intros H. unfold slice_to.
  destruct (Z.leb_spec 0 k); [|lia]. apply length_firstn.
Qed.

Lemma slice_to_zero {A} (l : list A) : slice_to l 0 = [].
Proof. reflexivity. Qed.

Lemma slice_to_neg_length {A} (l : list A) (k : Z) :
  (k < 0)%Z ->
  List.length (slice_to l k) = Z.to_nat (Z.of_nat (List.length l) + k).
Proof.
  intros H. unfold slice_to.
  destruct (Z.leb_spec 0 k); [lia|]. rewrite length_firstn. lia.
Qed.

Lemma is_nil_length {A} (l : list A) : is_nil l = true <-> List.length l = 0%nat.
Proof. destruct l; simpl; split; congruence. Qed.

(** *** Sorting and ranking *)

Lemma insert_desc_length {A} (lt : A -> A -> bool) x l :
  List.length (insert_desc lt x l) = S (List.length l).
Proof.
  induction l as [|y l IH]; simpl; [reflexivity|].
  destruct (lt x y); simpl; now rewrite ?IH.
Qed.

Lemma sorted_rev_length {A} (lt : A -> A -> bool) l :
  List.length (sorted_rev lt l) = List.length l.
Proof.
  induction l as [|x l IH]; simpl; [reflexivity|].
  rewrite insert_desc_length. now rewrite <- IH.
Qed.

Lemma insert_desc_Forall {A} (P : A -> Prop) (lt : A -> A -> bool) x l :
  P x -> Forall P l -> Forall P (insert_desc lt x l).
Proof.
  intros Hx Hl. induction Hl as [|y l Hy Hl IH]; simpl.
  - constructor; auto.
  - destruct (lt x y); constructor; auto.
Qed.

Lemma sorted_rev_Forall {A} (P : A -> Prop) (lt : A -> A -> bool) l :
  Forall P l -> Forall P (sorted_rev lt l).
Proof.
  induction 1 as [|x l Hx Hl IH]; simpl; [constructor|].
  apply insert_desc_Forall; auto.
Qed.

Lemma filter_none {A} (f : A -> bool) l :
  Forall (fun x => f x = false) l -> filter f l = [].
Proof.
  induction 1 as [|x l Hx Hl IH]; simpl; [reflexivity|].
  now rewrite Hx.
Qed.

Lemma mapM_Forall {A B} (f : A -> result B) (P : B -> Prop) (l : list A) :
  (forall x, In x l -> exists y, f x = Ok y /\ P y) ->
  exists ys, mapM f l = Ok ys /\ Forall P ys.
Proof.
  induction l as [|x l IH]; intros H; cbn [mapM].
  - exists []. split; [reflexivity | constructor].
  - destruct (H x (or_introl eq_refl)) as (y & -> & Hy).
    destruct IH as (ys & -> & Hys); [intros; apply H; now right|].
    cbn [bind]. exists (y :: ys). split; [reflexivity | constructor; auto].
Qed.

Lemma sorted_catalog : sorted_rev year_lt MOVIE_DB = by_year_desc.
Proof. vm_compute. reflexivity. Qed.

Lemma mapM_length {A B} (f : A -> result B) (l : list A) : forall ys,
  mapM f l = Ok ys -> List.length ys = List.length l.
Proof.
  induction l as [|x l IH]; cbn [mapM]; intros ys.
  - intros [= <-]. reflexivity.
  - destruct (f x) as [y|]; cbn [bind]; [|discriminate].
    destruct (mapM f l) as [ys'|]; cbn [bind]; [|discriminate].
    intros [= <-]. simpl. now rewrite (IH ys' eq_refl).
Qed.

Lemma ranked_length d scored :
  mapM (fun m => score <- _score_movie_against_slots m d ;; Ok (score, m)) MOVIE_DB
  = Ok scored ->
  (List.length (map snd (filter (fun sm => (fst sm >? 0)%Z)
                                (sorted_rev scored_lt scored))) <= 5)%nat.
Proof.
  intros E. apply mapM_length in E.
  rewrite length_map.
  etransitivity; [apply filter_length_le|].
  rewrite sorted_rev_length, E. reflexivity.
Qed.

(** For a mapping the era score accepts, [retrieve_candidates] returns, and
    its result is a slice of five entries at most. *)
Lemma retrieve_total d k :
  era_ok d = true ->
  exists l, retrieve_candidates d k = Ok l
    /\ ((0 <= k)%Z -> (Z.of_nat (List.length l) <= k)%Z)
    /\ ((1 <= k)%Z -> (1 <= List.length l)%nat)
    /\ ((k < 0)%Z -> (List.length l <= Z.to_nat (5 + k))%nat)
    /\ (k = 0%Z -> l = []).
Proof.
  intros Hok. unfold retrieve_candidates.
  destruct (dict_is_empty d).
  - eexists. split; [reflexivity|]. repeat split.
    + intros. rewrite slice_to_length by assumption. lia.
    + intros. rewrite slice_to_length by lia. simpl. lia.
    + intros. rewrite slice_to_neg_length by assumption. simpl. lia.
    + intros ->. reflexivity.
  - destruct (scored_total d Hok) as [scored E]. rewrite E. cbn [bind].
    pose proof (ranked_length d scored E) as HL.
    set (L := map snd (filter (fun sm => (fst sm >? 0)%Z) (sorted_rev scored_lt scored))) in *.
    destruct (is_nil (slice_to L k)) eqn:Enil.
    + rewrite sorted_catalog.
      eexists. split; [reflexivity|]. repeat split.
      * intros. rewrite slice_to_length by assumption. lia.
      * intros. rewrite slice_to_length by lia. simpl. lia.
      * intros. rewrite slice_to_neg_length by assumption. simpl. lia.
      * intros ->. reflexivity.
    + eexists. split; [reflexivity|].
      assert (Hn : List.length (slice_to L k) <> 0%nat).
      { intros H0. apply is_nil_length in H0. congruence. }
      repeat split.
      * intros. rewrite slice_to_length by assumption. lia.
      * lia.
      * intros. rewrite slice_to_neg_length by assumption. lia.
      * intros ->. exfalso. apply Hn. reflexivity.
Qed.

Lemma retrieve_fallback d k :
  dict_is_empty d = false ->
  (forall m, In m MOVIE_DB ->
     exists z, _score_movie_against_slots m d = Ok z /\ (z <= 0)%Z) ->
  retrieve_candidates d k = Ok (slice_to by_year_desc k).
Proof.
  intros Hne Hs. unfold retrieve_candidates. rewrite Hne.
  destruct (mapM_Forall
              (fun m => score <- _score_movie_against_slots m d ;; Ok (score, m))
              (fun sm => (fst sm >? 0)%Z = false) MOVIE_DB) as (scored & -> & Hall).
  { intros m Hm. destruct (Hs m Hm) as (z & -> & Hz). cbn [bind].
    eexists. split; [reflexivity|]. simpl. lia. }
  cbn [bind].
  rewrite (filter_none _ _ (sorted_rev_Forall _ _ _ Hall)).
  replace (is_nil (slice_to (map snd []) k)) with true
    by (unfold slice_to; simpl; destruct (0 <=? k)%Z; now rewrite firstn_nil).
  now rewrite sorted_catalog.
Qed.

Lemma mapM_scored d (l : list movie) :
  (forall m, In m l -> exists z, _score_movie_against_slots m d = Ok z) ->
  mapM (fun m => score <- _score_movie_against_slots m d ;; Ok (score, m)) l
  = Ok (map (fun m => (score_of d m, m)) l).
Proof.
  induction l as [|m l IH]; intros H; cbn [mapM map]; [reflexivity|].
  destruct (H m (or_introl eq_refl)) as [z Ez].
  unfold score_of at 1. rewrite Ez. cbn [bind].
  rewrite IH by (intros; apply H; now right). reflexivity.
Qed.

(** The result of [retrieve_candidates] when the scoring does not raise. *)
Lemma retrieve_eq d k :
  era_ok d = true ->
  retrieve_candidates d k
  = Ok (if dict_is_empty d then slice_to MOVIE_DB k
        else if is_nil (slice_to (positives d) k) then slice_to by_year_desc k
        else slice_to (positives d) k).
Proof.
  intros Hok. unfold retrieve_candidates.
  destruct (dict_is_empty d); [reflexivity|].
  rewrite mapM_scored by (intros m _; now apply score_total).
  cbn [bind]. fold (positives d). rewrite sorted_catalog.
  destruct (is_nil (slice_to (positives d) k)); reflexivity.
Qed.

Lemma slice_to_negative {A} (l : list A) (k : Z) :
  (k < 0)%Z -> slice_to l k = drop_last (Z.to_nat (- k)) l.
Proof.
  intros H. unfold slice_to, drop_last.
  destruct (Z.leb_spec 0 k); [lia|]. f_equal. lia.
Qed.

(** *** The invariant of the slot extractor *)

Lemma slots_inv_empty : slots_inv [].
Proof. split; [intros k [] | reflexivity]. Qed.

Lemma slots_inv_set k v d :
  In k slot_names -> k <> k_release_era -> slots_inv d -> slots_inv (dict_set k v d).
Proof.
  intros Hk Hne [Hkeys Hera]. split.
  - intros x Hx. apply dict_keys_set in Hx as [->|Hx]; auto.
  - unfold era_ok in *. now rewrite dict_get_set_other.
Qed.

Lemma slots_inv_set_era v d :
  era_faults v = false -> slots_inv d -> slots_inv (dict_set k_release_era v d).
Proof.
  intros Hv [Hkeys _]. split.
  - intros x Hx. apply dict_keys_set in Hx as [->|Hx]; auto.
    vm_compute. tauto.
  - unfold era_ok. rewrite dict_get_set_same. now rewrite Hv.
Qed.

Ltac slot_key := first [ vm_compute; tauto | discriminate ].

Lemma detect_genre_inv text d : slots_inv d -> slots_inv (detect_genre text d).
Proof.
  intros H. unfold detect_genre.
  destruct (find _ GENRE_SYNONYMS) as [[k v]|]; [|exact H].
  apply slots_inv_set; [slot_key | slot_key | exact H].
Qed.

Lemma detect_mood_inv text d : slots_inv d -> slots_inv (detect_mood text d).
Proof.
  intros H. unfold detect_mood.
  destruct (find _ MOOD_KEYWORDS) as [[k v]|]; [|exact H].
  apply slots_inv_set; [slot_key | slot_key | exact H].
Qed.

Lemma detect_director_inv text d : slots_inv d -> slots_inv (detect_director text d).
Proof.
  intros H. unfold detect_director.
  destruct (find _ MOVIE_DB) as [m|]; [|exact H].
  apply slots_inv_set; [slot_key | slot_key | exact H].
Qed.

Lemma era_faults_of_int z : era_faults (of_int z) = false.
Proof.
  unfold era_faults. destruct (int (of_int z)); [reflexivity|].
  now rewrite of_int_not_label.
Qed.

Lemma detect_release_era_inv user_input text d :
  slots_inv d ->
  exists d', detect_release_era user_input text d = Ok d' /\ slots_inv d'.
Proof.
  intros H. unfold detect_release_era.
  destruct (re_search year_re user_input) as [g|] eqn:E.
  - destruct (year_search_int _ _ E) as [y ->].
    eexists. split; [reflexivity|].
    apply slots_inv_set_era; [apply era_faults_of_int | exact H].
  - destruct (find _ (map fst ERA_KEYWORDS)) as [era|] eqn:F.
    + eexists. split; [reflexivity|].
      apply slots_inv_set_era; [|exact H].
      apply find_In in F. simpl in F.
      repeat (destruct F as [<-|F];
              [unfold era_faults; rewrite !int_short by (vm_compute; lia);
               vm_compute; reflexivity|]).
      destruct F.
    + eauto.
Qed.

Lemma detect_language_catalog_inv text d :
  slots_inv d -> slots_inv (detect_language_catalog text d).
Proof.
  intros H. unfold detect_language_catalog.
  destruct (find _ MOVIE_DB) as [m|]; [|exact H].
  apply slots_inv_set; [slot_key | slot_key | exact H].
Qed.

Lemma detect_language_words_inv text d :
  slots_inv d -> slots_inv (detect_language_words text d).
Proof.
  intros H. unfold detect_language_words.
  destruct (str_in (u "korean") text), (str_in (u "english") text);
    repeat (apply slots_inv_set; [slot_key | slot_key |]); exact H.
Qed.

Lemma detect_runtime_inv text d : slots_inv d -> slots_inv (detect_runtime text d).
Proof.
  intros H. unfold detect_runtime.
  destruct (re_test short_re text), (re_test long_re text);
    repeat (apply slots_inv_set; [slot_key | slot_key |]); exact H.
Qed.

(** [identify_slots] returns on every input; its mapping satisfies the
    invariant and its list is computed from the mapping. *)
Lemma identify_slots_shape user_input :
  exists d,
    slots_inv d
    /\ identify_slots user_input = Ok (finish_slots (lower user_input) d)
    /\ slots_inv (fst (finish_slots (lower user_input) d)).
Proof.
  unfold identify_slots.
  destruct (detect_release_era_inv user_input (lower user_input)
              (detect_director (lower user_input)
                 (detect_mood (lower user_input)
                    (detect_genre (lower user_input) []))))
    as (d' & -> & Hd').
  { apply detect_director_inv, detect_mood_inv, detect_genre_inv, slots_inv_empty. }
  cbn [bind]. exists d'. split; [exact Hd'|]. split; [reflexivity|].
  apply detect_runtime_inv, detect_language_words_inv, detect_language_catalog_inv, Hd'.
Qed.

Lemma identify_slots_total user_input :
  exists filled,
    identify_slots user_input = Ok (filled, missing_of filled) /\ slots_inv filled.
Proof.
  destruct (identify_slots_shape user_input) as (d & _ & E & H).
  eexists. split; [exact E | exact H].
Qed.

(** *** The clarification policy *)

Lemma missing_of_nil f :
  missing_of f = [] <-> forallb (fun k => dict_mem k f) slot_names = true.
Proof.
  unfold missing_of. induction slot_names as [|k l IH]; simpl.
  - tauto.
  - destruct (dict_mem k f); simpl; [exact IH | split; discriminate].
Qed.

Lemma missing_of_In f k :
  In k (missing_of f) <-> In k slot_names /\ ~ In k (dict_keys f).
Proof.
  unfold missing_of. rewrite filter_In, negb_true_iff.
  rewrite <- dict_mem_keys. destruct (dict_mem k f); intuition congruence.
Qed.

Lemma list_mem_In p l : list_mem p l = true <-> In p l.
Proof.
  unfold list_mem. rewrite existsb_exists. split.
  - intros (x & Hx & E). apply str_eqb_eq in E. now subst.
  - intros H. exists p. split; [exact H | apply str_eqb_refl].
Qed.

Lemma question_for_priority k :
  In k priority -> exists q, question_for k = Some q /\ In q six_questions.
Proof.
  unfold priority, six_questions. cbn [In].
  intros [<-|[<-|[<-|[<-|[<-|[<-|[]]]]]]];
    (eexists; split; [vm_compute; reflexivity|]).
  - left; reflexivity.
  - do 1 right; left; reflexivity.
  - do 2 right; left; reflexivity.
  - do 3 right; left; reflexivity.
  - do 4 right; left; reflexivity.
  - do 5 right; left; reflexivity.
Qed.

Lemma ask_missing_of f :
  (missing_of f = [] /\ ask_missing (missing_of f) = Ok None)
  \/ (exists q, ask_missing (missing_of f) = Ok (Some q) /\ In q six_questions).
Proof.
  destruct (missing_of f) as [|k0 l] eqn:E; [left; split; reflexivity | right].
  unfold ask_missing. cbn [is_nil].
  destruct (find (fun p => list_mem p (k0 :: l)) priority) as [p|] eqn:F.
  - apply find_some in F as [Hp _].
    destruct (question_for_priority p Hp) as (q & -> & Hq). eauto.
  - exfalso.
    assert (Hk : In k0 (missing_of f)) by (rewrite E; now left).
    apply missing_of_In in Hk as [Hk _].
    apply (find_none _ _ F) in Hk.
    assert (list_mem k0 (k0 :: l) = true) by (apply list_mem_In; now left).
    congruence.
Qed.

Lemma confirm_all_filled f :
  forallb (fun k => dict_mem k f) slot_names = true ->
  confirm f = Ok Q_action \/ exists d, confirm f = Ok (Q_same_director d).
Proof.
  change slot_names with priority. unfold priority. cbn [forallb].
  intros H. repeat (apply andb_true_iff in H as [? H]).
  unfold confirm.
  assert (dict_is_empty f = false) as ->.
  { destruct f; [discriminate | reflexivity]. }
  cbn [negb].
  destruct (match dict_get k_genre f with
            | Some g => negb (is_empty g) && str_in (u "Action") g
            | None => false
            end); [now left | right].
  match goal with H : dict_mem k_director f = true |- _ =>
    rewrite H; unfold dict_mem in H end.
  destruct (dict_get k_director f) as [d|]; [eauto | discriminate].
Qed.

Lemma candidate_lines_movies (l : list movie) :
  exists lines, mapM candidate_line (map entry_of l) = Ok lines.
Proof.
  induction l as [|m l [lines IH]]; cbn [map mapM].
  - eauto.
  - unfold candidate_line at 1. cbn [entry_of e_title bind]. rewrite IH. cbn [bind]. eauto.
Qed.

(** The prompt is built without fault for catalog movies. *)
Lemma build_dynamic_prompt_movies user_input filled (l : list movie) :
  exists prompt, build_dynamic_prompt user_input filled (map entry_of l) = Ok prompt.
Proof.
  unfold build_dynamic_prompt, _format_candidates_for_prompt.
  destruct (is_nil (map entry_of l)); cbn [bind]; [eauto|].
  destruct (candidate_lines_movies l) as [lines ->]. cbn [bind]. eauto.
Qed.

(** The value of [get_ai_response]: candidates and prompt are computed and
    then the policy decides on the slots alone. *)
Lemma get_ai_response_policy user_input :
  exists filled,
    identify_slots user_input = Ok (filled, missing_of filled)
    /\ slots_inv filled
    /\ get_ai_response user_input =
       (asked <- ask_missing (missing_of filled) ;;
        match asked with
        | Some question => Ok question
        | None => confirm filled
        end).
Proof.
  destruct (identify_slots_total user_input) as (f & E & Hinv).
  exists f. split; [exact E|]. split; [exact Hinv|].
  unfold get_ai_response. rewrite E. cbn [bind fst snd].
  destruct (retrieve_total f 3 (proj2 Hinv)) as (l & -> & _). cbn [bind].
  destruct (build_dynamic_prompt_movies user_input f l) as [prompt ->].
  reflexivity.
Qed.

Lemma get_ai_response_cases user_input :
  exists q, get_ai_response user_input = Ok q
    /\ (In q (Q_action :: six_questions) \/ exists d, q = Q_same_director d).
Proof.
  destruct (get_ai_response_policy user_input) as (f & _ & _ & ->).
  destruct (ask_missing_of f) as [[Hnil ->]|(q & -> & Hq)]; cbn [bind].
  - apply missing_of_nil in Hnil.
    destruct (confirm_all_filled f Hnil) as [->|[d ->]].
    + eexists. split; [reflexivity|]. left. now left.
    + eexists. split; [reflexivity|]. right. eauto.
  - exists q. split; [reflexivity|]. left. now right.
Qed.

(** *** Whole-word occurrences and the runtime patterns *)

Ltac norm_lits :=
  repeat match goal with
  | |- context [u ?s] =>
      let x := eval vm_compute in (u s) in change (u s) with x
  end.

Lemma last_cons {A} (l : list A) : forall x d, last (x :: l) d = last l x.
Proof.
  induction l as [|y l IH]; intros x d; [reflexivity|].
  change (last (x :: y :: l) d) with (last (y :: l) d).
  now rewrite !IH.
Qed.

(** A match at a later position is found by the search, unless an earlier
    one is. *)
Lemma search_from_app r pre : forall prev s,
  match_here r (last (map Some pre) prev) s <> None ->
  search_from r prev (pre ++ s) <> None.
Proof.
  induction pre as [|c pre IH]; intros prev s H; rewrite search_from_eq.
  - simpl in *. destruct (match_here r prev s); [discriminate | contradiction].
  - destruct (match_here r prev ((c :: pre) ++ s)); [discriminate|].
    cbn [app]. apply IH.
    cbn [map] in H. now rewrite last_cons in H.
Qed.

Lemma re_test_app r pre s :
  match_here r (last (map Some pre) None) s <> None -> re_test r (pre ++ s) = true.
Proof.
  intros H. apply (search_from_app r pre None s) in H.
  unfold re_test, re_search. destruct (search_from r None (pre ++ s)); congruence.
Qed.

Lemma short_re_min prev post :
  word_opt prev = false -> starts_with_word post = false ->
  match_here short_re prev (u "min" ++ post) = Some post.
Proof.
  unfold starts_with_word, match_here, short_re, opt_space. intros Hp Hq.
  norm_lits. cbn [app rmatch hd_error]. rewrite Hp.
  change (word_opt (Some 109)) with true. cbn [xorb lit_match].
  change (115 =? 109) with false. change (117 =? 109) with false.
  change (60 =? 109) with false. cbv iota.
  change (109 =? 109) with true. change (105 =? 105) with true.
  change (110 =? 110) with true. cbv iota.
  rewrite Hq. reflexivity.
Qed.

Lemma long_re_min prev post :
  word_opt prev = false -> starts_with_word post = false ->
  match_here long_re prev (u "min" ++ post) = Some post.
Proof.
  unfold starts_with_word, match_here, long_re, opt_space. intros Hp Hq.
  norm_lits. cbn [app rmatch hd_error]. rewrite Hp.
  change (word_opt (Some 109)) with true. cbn [xorb lit_match].
  change (108 =? 109) with false. change (101 =? 109) with false.
  change (111 =? 109) with false. change (62 =? 109) with false. cbv iota.
  change (109 =? 109) with true. change (105 =? 105) with true.
  change (110 =? 110) with true. cbv iota.
  rewrite Hq. reflexivity.
Qed.

Lemma detect_runtime_long text d :
  re_test long_re text = true ->
  dict_get k_runtime (detect_runtime text d) = Some (u "long").
Proof.
  intros H. unfold detect_runtime. rewrite H. apply dict_get_set_same.
Qed.

Lemma detect_runtime_other k text d :
  k <> k_runtime -> dict_get k (detect_runtime text d) = dict_get k d.
Proof.
  intros H. unfold detect_runtime.
  destruct (re_test short_re text), (re_test long_re text);
    rewrite ?dict_get_set_other by congruence; reflexivity.
Qed.

Lemma detect_language_words_english text d :
  str_in (u "english") text = true ->
  dict_get k_language (detect_language_words text d) = Some (u "English").
Proof.
  intros H. unfold detect_language_words. rewrite H. apply dict_get_set_same.
Qed.

(* ================================================================== *)
(** ** The properties of the specification *)

Lemma Q_same_director_nonempty d : Q_same_director d <> [].
Proof. unfold Q_same_director. norm_lits. discriminate. Qed.

Lemma Q_same_director_asks d : str_in (u "?") (Q_same_director d) = true.
Proof.
  unfold Q_same_director. apply str_in_app_r, str_in_app_r.
  vm_compute. reflexivity.
Qed.

(** C1. For every input string, the empty one included, [get_ai_response]
    returns, and what it returns is a non-empty string that contains a
    question mark. *)
Theorem get_ai_response_asks_a_question (user_input : str) :
  exists q,
    get_ai_response user_input = Ok q /\ q <> [] /\ str_in (u "?") q = true.
Proof.
  destruct (get_ai_response_cases user_input) as (q & E & [Hin | [d ->]]);
    exists q || exists (Q_same_director d); (split; [exact E|]).
  - unfold six_questions in Hin. cbn [In] in Hin.
    destruct Hin as [<-|[<-|[<-|[<-|[<-|[<-|[<-|[]]]]]]]];
      (split; [vm_compute; discriminate | vm_compute; reflexivity]).
  - split; [apply Q_same_director_nonempty | apply Q_same_director_asks].
Qed.

Lemma dict_mem_list_mem k d : dict_mem k d = list_mem k (dict_keys d).
Proof.
  destruct (dict_mem k d) eqn:E1, (list_mem k (dict_keys d)) eqn:E2; try reflexivity.
  - apply dict_mem_keys, list_mem_In in E1. congruence.
  - apply list_mem_In, dict_mem_keys in E2. congruence.
Qed.

(** C3. For every input string, [identify_slots] returns a pair whose
    mapping has its keys among the six slot names and whose list is the
    complement of those keys, in the order of the enumeration. *)
Theorem identify_slots_partition (user_input : str) :
  exists filled missing,
    identify_slots user_input = Ok (filled, missing)
    /\ slot_names = [u "genre"; u "mood"; u "release_era"; u "director";
                     u "language"; u "runtime"]
    /\ (forall k, In k (dict_keys filled) -> In k slot_names)
    /\ missing = filter (fun k => negb (list_mem k (dict_keys filled))) slot_names
    /\ (forall k, In k missing <-> In k slot_names /\ ~ In k (dict_keys filled)).
Proof.
  destruct (identify_slots_total user_input) as (f & E & Hkeys & _).
  exists f, (missing_of f). split; [exact E|]. split; [reflexivity|].
  split; [exact Hkeys|]. split.
  - unfold missing_of. apply filter_ext. intros k. now rewrite dict_mem_list_mem.
  - apply missing_of_In.
Qed.


(** C2, at the input that breaks it.  The era label of four superscript
    digits passes [isdigit] and is refused by [int]: the score, and with it
    [retrieve_candidates], raises [ValueError] instead of returning between
    one and [top_k] entries. *)
Theorem retrieve_candidates_superscript_era :
  let val := [178; 178; 178; 178; 115] in
  val = u "²²²²s"
  /\ int val = None /\ endswith (u "s") val = true
  /\ isdigit (firstn 4 val) = true /\ int (firstn 4 val) = None
  /\ retrieve_candidates [(u "release_era", val)] 3 = Raise ValueError.
Proof.
  intros val.
  assert (H5 : int val = None)
    by (rewrite int_short by (cbn [List.length val]; lia); vm_compute; reflexivity).
  assert (H4 : int (firstn 4 val) = None)
    by (rewrite int_short by (cbn [List.length val firstn]; lia); vm_compute; reflexivity).
  split; [vm_compute; reflexivity|]. split; [exact H5|].
  split; [vm_compute; reflexivity|]. split; [vm_compute; reflexivity|].
  split; [exact H4|].
  assert (Hok : era_ok [(u "release_era", val)] = false).
  { unfold era_ok. change (dict_get k_release_era [(u "release_era", val)]) with (Some val).
    unfold era_faults. rewrite H5, H4. vm_compute. reflexivity. }
  unfold retrieve_candidates. cbn [dict_is_empty]. unfold MOVIE_DB. cbn [mapM].
  now rewrite (score_raises inception _ Hok).
Qed.

(** C5, amended.  For a mapping whose release era the era score accepts
    and [top_k <= 0], [retrieve_candidates] returns without raising: the
    empty list for [top_k = 0], and for a negative [top_k] the list it
    slices without its last [-top_k] entries.  That list is the catalog for
    the empty mapping; otherwise the movies with a positive score in rank
    order or, when the slice leaves none of them, the catalog from the most
    recent movie to the oldest. *)
Theorem retrieve_candidates_nonpositive_top_k (filled_slots : dict) (top_k : Z) :
  era_ok filled_slots = true ->
  (top_k <= 0)%Z ->
  retrieve_candidates filled_slots top_k
  = Ok (if (top_k =? 0)%Z then []
        else
          let n := Z.to_nat (- top_k) in
          if dict_is_empty filled_slots then drop_last n MOVIE_DB
          else if is_nil (drop_last n (positives filled_slots))
               then drop_last n [parasite; la_la_land; the_avengers; inception;
                                 the_dark_knight]
          else drop_last n (positives filled_slots)).
Proof.
  intros Hok Hk. rewrite (retrieve_eq _ _ Hok).
  destruct (Z.eqb_spec top_k 0) as [->|Hne].
  - rewrite !slice_to_zero. cbn [is_nil].
    destruct (dict_is_empty filled_slots); reflexivity.
  - cbv zeta. rewrite !slice_to_negative by lia. reflexivity.
Qed.

(** Two slices with [top_k = -1], whatever the tables beyond U+00FF are. *)
Lemma negative_top_k_slices :
  retrieve_candidates [] (-1) = Ok [inception; parasite; the_avengers; la_la_land]
  /\ retrieve_candidates [(u "genre", u "Action")] (-1) = Ok [the_avengers; inception].
Proof. vm_compute. split; reflexivity. Qed.

(** C6, amended.  When the lowercased text contains ["min"] as a whole
    word (no word character next to it on either side), the short and the
    long runtime patterns both match, and [identify_slots] fills the runtime
    slot with ["long"]. *)
Theorem whole_word_min_sets_long (user_input pre post : str) :
  lower user_input = pre ++ u "min" ++ post ->
  ends_in_word pre = false ->
  starts_with_word post = false ->
  re_test short_re (lower user_input) = true
  /\ re_test long_re (lower user_input) = true
  /\ exists filled missing,
       identify_slots user_input = Ok (filled, missing)
       /\ dict_get k_runtime filled = Some (u "long").
Proof.
  intros Htext Hpre Hpost. unfold ends_in_word in Hpre.
  assert (Hshort : re_test short_re (lower user_input) = true).
  { rewrite Htext. apply re_test_app. now rewrite short_re_min. }
  assert (Hlong : re_test long_re (lower user_input) = true).
  { rewrite Htext. apply re_test_app. now rewrite long_re_min. }
  split; [exact Hshort|]. split; [exact Hlong|].
  destruct (identify_slots_shape user_input) as (d & _ & E & _).
  rewrite E. unfold finish_slots. do 2 eexists. split; [reflexivity|].
  now apply detect_runtime_long.
Qed.

(** The input ["minute"], whatever the tables beyond U+00FF are. *)
Lemma minute_sets_no_runtime :
  str_in (u "min") (lower (u "minute")) = true
  /\ re_test short_re (lower (u "minute")) = false
  /\ re_test long_re (lower (u "minute")) = false
  /\ identify_slots (u "minute")
     = Ok ([], [u "genre"; u "mood"; u "release_era"; u "director";
                u "language"; u "runtime"]).
Proof. vm_compute. repeat split. Qed.

(** C7. When the lowercased input contains both ["korean"] and
    ["english"], the language slot is ["English"].  The two tests that
    follow the catalog loop overwrite whatever the loop stored: ["English"]
    if ["english"] occurs, else ["Korean"] if ["korean"] occurs. *)
Theorem english_wins_over_korean (user_input : str) :
  str_in (u "korean") (lower user_input) = true ->
  str_in (u "english") (lower user_input) = true ->
  (exists filled missing,
     identify_slots user_input = Ok (filled, missing)
     /\ dict_get k_language filled = Some (u "English"))
  /\ (forall text d,
        dict_get k_language (detect_language_words text d)
        = if str_in (u "english") text then Some (u "English")
          else if str_in (u "korean") text then Some (u "Korean")
          else dict_get k_language d).
Proof.
  intros _ Hen. split.
  - destruct (identify_slots_shape user_input) as (d & _ & E & _).
    rewrite E. unfold finish_slots. do 2 eexists. split; [reflexivity|].
    rewrite detect_runtime_other by discriminate.
    now apply detect_language_words_english.
  - intros text d. unfold detect_language_words.
    destruct (str_in (u "english") text), (str_in (u "korean") text);
      rewrite ?dict_get_set_same; reflexivity.
Qed.

(** C8. When [identify_slots] fills all six slots and the genre value
    contains ["Action"], [get_ai_response] returns the gritty-or-blockbuster
    question, whatever the other values are. *)
Theorem all_filled_action_question (user_input : str) (filled : dict)
    (missing : list str) (g : str) :
  identify_slots user_input = Ok (filled, missing) ->
  forallb (fun k => dict_mem k filled) slot_names = true ->
  dict_get k_genre filled = Some g ->
  str_in (u "Action") g = true ->
  get_ai_response user_input
  = Ok (u "Great — for action, do you want something gritty/realistic or a fun blockbuster?").
Proof.
  intros E Hall Hg Hact.
  destruct (get_ai_response_policy user_input) as (f & E' & _ & ->).
  rewrite E in E'. injection E' as -> _.
  apply missing_of_nil in Hall. rewrite Hall.
  unfold ask_missing. cbn [is_nil bind]. unfold confirm.
  assert (dict_is_empty f = false) as -> by (destruct f; [discriminate | reflexivity]).
  rewrite Hg, Hact.
  assert (is_empty g = false) as -> by (destruct g; [discriminate | reflexivity]).
  reflexivity.
Qed.

(** C9. The starter question is never returned.  An empty mapping leaves
    all six slots missing, and then the genre question is returned from the
    missing-slot branch. *)
Theorem starter_question_unreachable (user_input : str) :
  (exists q,
     get_ai_response user_input = Ok q
     /\ q <> u "Got it — to start, what type of movie would you like (genre, mood, or director)?")
  /\ (forall missing,
        identify_slots user_input = Ok ([], missing) ->
        missing = slot_names /\ get_ai_response user_input = Ok Q_genre).
Proof.
  split.
  - destruct (get_ai_response_cases user_input) as (q & E & [Hin | [d ->]]).
    + exists q. split; [exact E|].
      unfold six_questions in Hin. cbn [In] in Hin.
      destruct Hin as [<-|[<-|[<-|[<-|[<-|[<-|[<-|[]]]]]]]];
        vm_compute; discriminate.
    + eexists. split; [exact E|].
      unfold Q_same_director. norm_lits. discriminate.
  - intros missing E.
    destruct (get_ai_response_policy user_input) as (f & E' & _ & ->).
    rewrite E in E'. injection E' as <- ->.
    split; reflexivity.
Qed.

(** C10. The question depends on the result of [identify_slots] only: two
    inputs with the same slots get the same question, although the prompt
    built on the way quotes each input. *)
Theorem question_depends_on_slots_only (input1 input2 : str) :
  identify_slots input1 = identify_slots input2 ->
  get_ai_response input1 = get_ai_response input2.
Proof.
  unfold get_ai_response. intros ->.
  destruct (identify_slots input2) as [[f m]|e]; cbn [bind fst snd]; [|reflexivity].
  destruct (retrieve_candidates f 3) as [l|]; cbn [bind]; [|reflexivity].
  destruct (build_dynamic_prompt_movies input1 f l) as [prompt1 ->].
  destruct (build_dynamic_prompt_movies input2 f l) as [prompt2 ->].
  reflexivity.
Qed.


(* ================================================================== *)
(** ** Further properties of the ranker *)

(** X1. For a mapping whose release era the era score accepts and
    [top_k >= 1], [retrieve_candidates] returns between one and [top_k]
    candidates. *)
Theorem retrieve_candidates_between_one_and_top_k (filled_slots : dict) (top_k : Z) :
  era_ok filled_slots = true ->
  (1 <= top_k)%Z ->
  exists l,
    retrieve_candidates filled_slots top_k = Ok l
    /\ (1 <= List.length l)%nat
    /\ (Z.of_nat (List.length l) <= top_k)%Z.
Proof.
  intros Hok Hk.
  destruct (retrieve_total filled_slots top_k Hok) as (l & E & Hle & Hge & _).
  exists l. split; [exact E|]. split; [apply Hge; exact Hk | apply Hle; lia].
Qed.

Lemma no_positive_score_spec d :
  no_positive_score d = true ->
  forall m, In m MOVIE_DB ->
    exists z, _score_movie_against_slots m d = Ok z /\ (z <= 0)%Z.
Proof.
  unfold no_positive_score. rewrite forallb_forall. intros H m Hm.
  specialize (H m Hm). destruct (_score_movie_against_slots m d) as [z|]; [|discriminate].
  exists z. split; [reflexivity | lia].
Qed.

(** X2. For a non-empty mapping on which no catalog entry scores above 0,
    [retrieve_candidates] returns the [top_k] most recent catalog entries,
    most recent first. *)
Theorem retrieve_candidates_fallback_most_recent (filled_slots : dict) (top_k : Z) :
  dict_is_empty filled_slots = false ->
  no_positive_score filled_slots = true ->
  retrieve_candidates filled_slots top_k
  = Ok (slice_to [parasite; la_la_land; the_avengers; inception; the_dark_knight] top_k).
Proof.
  intros Hne Hs. apply retrieve_fallback; [exact Hne|].
  now apply no_positive_score_spec.
Qed.

(** X3. When [retrieve_candidates] raises: exactly for a non-empty mapping
    whose release-era value is refused by [int], ends in ['s'], starts with
    four [isdigit] characters, and whose first four characters [int] refuses
    too; the exception is [ValueError].  On every other mapping, and for
    every [top_k], it returns a list. *)
Theorem retrieve_candidates_raises_exactly (filled_slots : dict) (top_k : Z) :
  if negb (dict_is_empty filled_slots) && negb (era_ok filled_slots)
  then retrieve_candidates filled_slots top_k = Raise ValueError
  else exists l, retrieve_candidates filled_slots top_k = Ok l.
Proof.
  destruct (dict_is_empty filled_slots) eqn:Hemp; cbn [negb andb].
  - unfold retrieve_candidates. rewrite Hemp. eauto.
  - destruct (era_ok filled_slots) eqn:Hok; cbn [negb].
    + destruct (retrieve_total filled_slots top_k Hok) as (l & E & _). eauto.
    + unfold retrieve_candidates. rewrite Hemp. unfold MOVIE_DB. cbn [mapM].
      now rewrite (score_raises inception filled_slots Hok).
Qed.

Lemma era_points_bounds val m :
  match era_points val m with
  | Ok p => (0 <= p <= 3)%Z
  | Raise e => e = ValueError
  end.
Proof.
  unfold era_points. destruct (int val) as [y|].
  - destruct (release_year m =? y)%Z; [lia|].
    destruct (release_year m / 10 =? y / 10)%Z; lia.
  - destruct (endswith (u "s") val); [|lia].
    destruct ((4 <=? List.length val)%nat && isdigit (firstn 4 val)); cbn [bind].
    + destruct (int (firstn 4 val)) as [d|]; cbn [bind]; [|reflexivity].
      destruct (negb (d =? 0)%Z && in_era (era_range val ERA_KEYWORDS) (release_year m));
        lia.
    + lia.
Qed.

Lemma mood_fold_bounds mood (kws : list str) : forall acc,
  (acc <= fold_left (fun score kw =>
                       if str_in mood (lower kw)
                          || existsb (fun w => str_in w (lower kw)) (split mood)
                       then (score + 1)%Z else score) kws acc
       <= acc + Z.of_nat (List.length kws))%Z.
Proof.
  induction kws as [|kw kws IH]; intros acc; cbn [fold_left List.length].
  - lia.
  - match goal with |- context [if ?c then _ else _] => destruct c end;
      match goal with |- context [fold_left ?f kws ?a] => specialize (IH a) end; lia.
Qed.

Lemma mood_points_bounds mood m :
  (0 <= mood_points mood m <= Z.of_nat (List.length (keywords m)) + 1)%Z.
Proof.
  unfold mood_points.
  pose proof (mood_fold_bounds mood (keywords m) 0%Z) as H.
  destruct (str_in mood (lower (title m))); lia.
Qed.

Lemma score_bounds (m : movie) (filled_slots : dict) :
  match _score_movie_against_slots m filled_slots with
  | Ok z => (0 <= z <= 13 + Z.of_nat (List.length (keywords m)))%Z
  | Raise e => e = ValueError
  end.
Proof.
  unfold _score_movie_against_slots.
  set (s1 := match dict_get k_genre filled_slots with
             | Some g => if str_in (lower g) (lower (genre m)) then (0 + 3)%Z else 0%Z
             | None => 0%Z end).
  assert (H1 : (0 <= s1 <= 3)%Z).
  { subst s1. destruct (dict_get k_genre filled_slots) as [g|]; [|lia].
    destruct (str_in (lower g) (lower (genre m))); lia. }
  set (s2 := match dict_get k_director filled_slots with
             | Some d => if str_eqb (lower d) (lower (director m)) then (s1 + 4)%Z else s1
             | None => s1 end).
  assert (H2 : (0 <= s2 <= 7)%Z).
  { subst s2. destruct (dict_get k_director filled_slots) as [d|]; [|lia].
    destruct (str_eqb (lower d) (lower (director m))); lia. }
  set (s3 := match dict_get k_language filled_slots with
             | Some l => if str_eqb (lower (language m)) (lower l) then (s2 + 2)%Z else s2
             | None => s2 end).
  assert (H3 : (0 <= s3 <= 9)%Z).
  { subst s3. destruct (dict_get k_language filled_slots) as [l|]; [|lia].
    destruct (str_eqb (lower (language m)) (lower l)); lia. }
  clearbody s3. clear s1 s2 H1 H2.
  pose proof (mood_points_bounds) as Hm.
  destruct (dict_get k_release_era filled_slots) as [val|]; cbn [bind].
  - pose proof (era_points_bounds val m) as He.
    destruct (era_points val m) as [p|e]; cbn [bind]; [|exact He].
    destruct (dict_get k_mood filled_slots) as [mood|]; [specialize (Hm mood m)|]; lia.
  - destruct (dict_get k_mood filled_slots) as [mood|]; [specialize (Hm mood m)|]; lia.
Qed.

(** X7. A score is never negative and never above 13 plus the number of
    keywords of the movie (3 genre, 4 director, 2 language, 3 release era,
    one per keyword and one for the title); the only exception the scoring
    raises is [ValueError]. *)
Theorem score_is_bounded (m : movie) (filled_slots : dict) :
  match _score_movie_against_slots m filled_slots with
  | Ok z => (0 <= z <= 13 + Z.of_nat (List.length (keywords m)))%Z
  | Raise e => e = ValueError
  end.
Proof. exact (score_bounds m filled_slots). Qed.

Lemma insert_desc_perm {A} (lt : A -> A -> bool) x l :
  Permutation (insert_desc lt x l) (x :: l).
Proof.
  induction l as [|y l IH]; simpl; [reflexivity|].
  destruct (lt x y); [|reflexivity].
  rewrite IH. apply perm_swap.
Qed.

Lemma sorted_rev_perm {A} (lt : A -> A -> bool) l : Permutation (sorted_rev lt l) l.
Proof.
  induction l as [|x l IH]; simpl; [reflexivity|].
  rewrite insert_desc_perm. now constructor.
Qed.

Lemma NoDup_map_filter {A B} (f : A -> B) (p : A -> bool) l :
  NoDup (map f l) -> NoDup (map f (filter p l)).
Proof.
  induction l as [|x l IH]; simpl; intros H; [constructor|].
  inversion H as [|? ? Hx Hl]; subst.
  destruct (p x); simpl; [|auto].
  constructor; [|auto].
  intros Hin. apply Hx. apply in_map_iff in Hin as (y & Ey & Hy).
  apply filter_In in Hy as [Hy _]. apply in_map_iff. eauto.
Qed.

Lemma NoDup_firstn {A} (l : list A) : forall n, NoDup l -> NoDup (firstn n l).
Proof.
  induction l as [|x l IH]; intros [|n] H; simpl; try constructor.
  - inversion H as [|? ? Hx Hl]; subst. intros Hin. apply Hx.
    rewrite <- (firstn_skipn n l). apply in_or_app. now left.
  - inversion H; subst. auto.
Qed.

Lemma In_firstn {A} (l : list A) n x : In x (firstn n l) -> In x l.
Proof.
  intros H. rewrite <- (firstn_skipn n l). apply in_or_app. now left.
Qed.

Lemma slice_to_firstn {A} (l : list A) k : exists n, slice_to l k = firstn n l.
Proof. unfold slice_to. destruct (0 <=? k)%Z; eauto. Qed.

Lemma NoDup_catalog : NoDup MOVIE_DB.
Proof.
  apply (NoDup_map_inv release_year). unfold MOVIE_DB. cbn [map release_year].
  repeat constructor; cbn [In]; intros H;
    repeat (destruct H as [H|H]; [discriminate H|]); exact H.
Qed.

Lemma map_snd_scored d (l : list movie) :
  map snd (map (fun m => (score_of d m, m)) l) = l.
Proof. rewrite map_map. cbn [snd]. apply map_id. Qed.

Lemma positives_NoDup d : NoDup (positives d).
Proof.
  unfold positives. apply NoDup_map_filter.
  eapply Permutation_NoDup.
  - symmetry. apply Permutation_map. apply sorted_rev_perm.
  - rewrite map_snd_scored. apply NoDup_catalog.
Qed.

Lemma positives_spec d m :
  In m (positives d) <-> In m MOVIE_DB /\ (0 < score_of d m)%Z.
Proof.
  unfold positives. rewrite in_map_iff. split.
  - intros ([z m'] & <- & H). apply filter_In in H as [Hin Hpos].
    apply (Permutation_in _ (sorted_rev_perm _ _)) in Hin.
    apply in_map_iff in Hin as (m0 & [= <- <-] & Hm0).
    cbn [fst snd] in *. split; [exact Hm0 | lia].
  - intros [Hm Hpos]. exists (score_of d m, m). split; [reflexivity|].
    apply filter_In. split.
    + apply (Permutation_in _ (Permutation_sym (sorted_rev_perm _ _))).
      apply in_map_iff. eauto.
    + cbn [fst]. lia.
Qed.

Lemma by_year_desc_perm : NoDup by_year_desc /\ incl by_year_desc MOVIE_DB.
Proof.
  rewrite <- sorted_catalog. split.
  - eapply Permutation_NoDup; [symmetry; apply sorted_rev_perm | apply NoDup_catalog].
  - intros m Hm. now apply (Permutation_in _ (sorted_rev_perm _ _)) in Hm.
Qed.

(** X5. On a mapping the era score accepts, and for every [top_k], the
    candidates returned are catalog entries, no entry is returned twice, and
    so at most five are returned. *)
Theorem retrieve_candidates_distinct_catalog_entries (filled_slots : dict) (top_k : Z) :
  era_ok filled_slots = true ->
  exists l,
    retrieve_candidates filled_slots top_k = Ok l
    /\ NoDup l
    /\ (forall m, In m l -> In m MOVIE_DB)
    /\ (List.length l <= 5)%nat.
Proof.
  intros Hok. rewrite (retrieve_eq _ _ Hok). eexists. split; [reflexivity|].
  assert (H : forall L : list movie, NoDup L -> incl L MOVIE_DB ->
            NoDup (slice_to L top_k) /\ (forall m, In m (slice_to L top_k) -> In m MOVIE_DB)).
  { intros L HL Hincl. destruct (slice_to_firstn L top_k) as [n ->].
    split; [now apply NoDup_firstn|]. intros m Hm. apply Hincl. eapply In_firstn, Hm. }
  assert (G : forall L : list movie, NoDup L -> incl L MOVIE_DB ->
            NoDup (slice_to L top_k) /\ (forall m, In m (slice_to L top_k) -> In m MOVIE_DB)
            /\ (List.length (slice_to L top_k) <= 5)%nat).
  { intros L HL Hincl. destruct (H L HL Hincl) as [H1 H2]. repeat split; auto.
    change 5%nat with (List.length MOVIE_DB).
    apply NoDup_incl_length; [exact H1 | exact H2]. }
  destruct (dict_is_empty filled_slots).
  - apply G; [apply NoDup_catalog | apply incl_refl].
  - destruct (is_nil (slice_to (positives filled_slots) top_k)).
    + apply G; apply by_year_desc_perm.
    + apply G; [apply positives_NoDup|].
      intros m Hm. now apply positives_spec in Hm.
Qed.


(** *** The order of the result *)

Lemma scored_lt_asym a b : scored_lt a b = true -> scored_lt b a = false.
Proof.
  unfold scored_lt.
  destruct (Z.ltb_spec (fst a) (fst b)), (Z.ltb_spec (fst b) (fst a)),
           (Z.eqb_spec (fst a) (fst b)), (Z.eqb_spec (fst b) (fst a)),
           (Z.ltb_spec (release_year (snd a)) (release_year (snd b))),
           (Z.ltb_spec (release_year (snd b)) (release_year (snd a)));
    cbn; intros; try reflexivity; try discriminate; lia.
Qed.

Lemma scored_lt_trans a b c :
  scored_lt a b = false -> scored_lt b c = false -> scored_lt a c = false.
Proof.
  unfold scored_lt.
  destruct (Z.ltb_spec (fst a) (fst b)), (Z.ltb_spec (fst b) (fst c)),
           (Z.ltb_spec (fst a) (fst c)),
           (Z.eqb_spec (fst a) (fst b)), (Z.eqb_spec (fst b) (fst c)),
           (Z.eqb_spec (fst a) (fst c)),
           (Z.ltb_spec (release_year (snd a)) (release_year (snd b))),
           (Z.ltb_spec (release_year (snd b)) (release_year (snd c))),
           (Z.ltb_spec (release_year (snd a)) (release_year (snd c)));
    cbn; intros; try reflexivity; try discriminate; lia.
Qed.

Section InsertionSort.
Context {A : Type} (lt : A -> A -> bool).
Hypothesis lt_asym : forall a b, lt a b = true -> lt b a = false.
Hypothesis lt_trans :
  forall a b c, lt a b = false -> lt b c = false -> lt a c = false.

Let ge (a b : A) : Prop := lt a b = false.

Lemma insert_desc_sorted x l :
  StronglySorted ge l -> StronglySorted ge (insert_desc lt x l).
Proof.
  induction 1 as [|y l Hl IH Hy]; simpl.
  - constructor; constructor.
  - destruct (lt x y) eqn:E.
    + constructor; [exact IH|].
      apply Forall_forall. intros z Hz.
      apply (Permutation_in _ (insert_desc_perm lt x l)) in Hz.
      destruct Hz as [<-|Hz]; [now apply lt_asym|].
      rewrite Forall_forall in Hy. now apply Hy.
    + constructor; [now constructor|].
      constructor; [exact E|].
      apply Forall_forall. intros z Hz. rewrite Forall_forall in Hy.
      apply (lt_trans x y z); [exact E | now apply Hy].
Qed.

Lemma sorted_rev_sorted l : StronglySorted ge (sorted_rev lt l).
Proof.
  induction l as [|x l IH]; simpl; [constructor|].
  now apply insert_desc_sorted.
Qed.
End InsertionSort.

Lemma StronglySorted_filter {A} (R : A -> A -> Prop) (p : A -> bool) l :
  StronglySorted R l -> StronglySorted R (filter p l).
Proof.
  induction 1 as [|x l Hl IH Hx]; simpl; [constructor|].
  destruct (p x); [|exact IH].
  constructor; [exact IH|].
  apply Forall_forall. intros y Hy. apply filter_In in Hy as [Hy _].
  rewrite Forall_forall in Hx. now apply Hx.
Qed.

Lemma StronglySorted_firstn {A} (R : A -> A -> Prop) l :
  StronglySorted R l -> forall n, StronglySorted R (firstn n l).
Proof.
  induction 1 as [|x l Hl IH Hx]; intros [|n]; simpl; try constructor.
  - apply IH.
  - apply Forall_forall. intros y Hy. apply In_firstn in Hy.
    rewrite Forall_forall in Hx. now apply Hx.
Qed.

Lemma StronglySorted_map {A B} (f : A -> B) (R : A -> A -> Prop) (Q : B -> B -> Prop) l :
  (forall a b, In a l -> In b l -> R a b -> Q (f a) (f b)) ->
  StronglySorted R l -> StronglySorted Q (map f l).
Proof.
  intros H Hs. induction Hs as [|x l Hl IH Hx]; simpl; [constructor|].
  constructor.
  - apply IH. intros a b Ha Hb. apply H; now right.
  - apply Forall_forall. intros y Hy. apply in_map_iff in Hy as (a & <- & Ha).
    rewrite Forall_forall in Hx. apply H; [now left | now right | now apply Hx].
Qed.

Lemma positives_sorted d : StronglySorted (ranks_before d) (positives d).
Proof.
  unfold positives.
  apply (StronglySorted_map snd (fun a b => scored_lt a b = false)).
  - intros [za a] [zb b] Ha Hb.
    apply filter_In in Ha as [Ha _]. apply filter_In in Hb as [Hb _].
    apply (Permutation_in _ (sorted_rev_perm _ _)) in Ha, Hb.
    apply in_map_iff in Ha as (a' & [= <- <-] & _).
    apply in_map_iff in Hb as (b' & [= <- <-] & _).
    intros H. exact H.
  - apply StronglySorted_filter.
    apply sorted_rev_sorted; [apply scored_lt_asym | apply scored_lt_trans].
Qed.

Lemma positives_nil d :
  positives d = [] -> forall m, In m MOVIE_DB -> (score_of d m <= 0)%Z.
Proof.
  intros E m Hm. destruct (Z.le_gt_cases (score_of d m) 0) as [H|H]; [exact H|].
  assert (Hin : In m (positives d)) by (apply positives_spec; split; [exact Hm | lia]).
  rewrite E in Hin. destruct Hin.
Qed.

Lemma score_of_nonneg d m : (0 <= score_of d m)%Z.
Proof.
  unfold score_of. pose proof (score_bounds m d) as H.
  destruct (_score_movie_against_slots m d); lia.
Qed.

Lemma by_year_desc_sorted d :
  (forall m, In m MOVIE_DB -> (score_of d m <= 0)%Z) ->
  StronglySorted (ranks_before d) by_year_desc.
Proof.
  intros H.
  assert (Hz : forall m, In m MOVIE_DB -> score_of d m = 0%Z).
  { intros m Hm. pose proof (score_of_nonneg d m). specialize (H m Hm). lia. }
  unfold by_year_desc.
  repeat constructor; unfold ranks_before, scored_lt; cbn [fst snd];
    rewrite !Hz by (unfold MOVIE_DB; cbn [In]; tauto); reflexivity.
Qed.

Lemma is_nil_firstn {A} (l : list A) n : (1 <= n)%nat -> is_nil (firstn n l) = is_nil l.
Proof. destruct n; [lia|]. destruct l; reflexivity. Qed.

(** X6. For a non-empty mapping the era score accepts and [top_k >= 0],
    the candidates come in descending order of the key
    [(score, release_year)]: no candidate has a smaller key than one after
    it.  When some catalog entry scores above 0, every candidate returned
    scores above 0. *)
Theorem retrieve_candidates_ranked (filled_slots : dict) (top_k : Z) :
  era_ok filled_slots = true ->
  dict_is_empty filled_slots = false ->
  (0 <= top_k)%Z ->
  exists l,
    retrieve_candidates filled_slots top_k = Ok l
    /\ StronglySorted (ranks_before filled_slots) l
    /\ (no_positive_score filled_slots = false ->
        forall m, In m l -> (0 < score_of filled_slots m)%Z).
Proof.
  intros Hok Hne Hk. rewrite (retrieve_eq _ _ Hok), Hne.
  eexists. split; [reflexivity|].
  unfold slice_to. destruct (Z.leb_spec 0 top_k) as [_|]; [|lia].
  destruct (Z.to_nat top_k) as [|n] eqn:En.
  - cbn [firstn is_nil]. split; [constructor | intros _ m []].
  - rewrite is_nil_firstn by lia.
    destruct (positives filled_slots) as [|p ps] eqn:Ep; cbn [is_nil].
    + split.
      * apply StronglySorted_firstn, by_year_desc_sorted, positives_nil, Ep.
      * intros Hpos. exfalso. unfold no_positive_score in Hpos.
        apply Bool.not_true_iff_false in Hpos. apply Hpos.
        apply forallb_forall. intros m Hm.
        destruct (score_total m filled_slots Hok) as [z Ez]. rewrite Ez.
        pose proof (positives_nil _ Ep m Hm) as Hle.
        unfold score_of in Hle. rewrite Ez in Hle. now apply Z.leb_le.
    + rewrite <- Ep. split.
      * apply StronglySorted_firstn, positives_sorted.
      * intros _ m Hm. apply In_firstn in Hm. now apply positives_spec in Hm.
Qed.

Lemma firstn_prefix {A} (l : list A) : forall n n',
  (n <= n')%nat -> exists t, firstn n' l = firstn n l ++ t.
Proof.
  induction l as [|x l IH]; intros n n' H.
  - exists []. now rewrite !firstn_nil.
  - destruct n as [|n]; [cbn [firstn app]; eauto|].
    destruct n' as [|n']; [lia|].
    destruct (IH n n') as [t Et]; [lia|].
    exists t. cbn [firstn]. rewrite Et. reflexivity.
Qed.

(** X4. Asking for more candidates only extends the list: for a mapping
    the era score accepts and [0 <= top_k <= top_k'], the result for
    [top_k] is a prefix of the result for [top_k']. *)
Theorem retrieve_candidates_prefix (filled_slots : dict) (top_k top_k' : Z) :
  era_ok filled_slots = true ->
  (0 <= top_k <= top_k')%Z ->
  exists l t,
    retrieve_candidates filled_slots top_k = Ok l
    /\ retrieve_candidates filled_slots top_k' = Ok (l ++ t).
Proof.
  intros Hok [Hk Hk']. rewrite !(retrieve_eq _ _ Hok).
  unfold slice_to.
  destruct (Z.leb_spec 0 top_k) as [_|]; [|lia].
  destruct (Z.leb_spec 0 top_k') as [_|]; [|lia].
  assert (Hn : (Z.to_nat top_k <= Z.to_nat top_k')%nat) by lia.
  destruct (dict_is_empty filled_slots).
  - destruct (firstn_prefix MOVIE_DB _ _ Hn) as [t ->]. eauto.
  - destruct (Z.to_nat top_k) as [|n] eqn:En.
    + cbn [firstn is_nil]. exists []. eexists. split; reflexivity.
    + rewrite !is_nil_firstn by lia.
      destruct (is_nil (positives filled_slots)).
      * destruct (firstn_prefix by_year_desc _ _ Hn) as [t ->]. eauto.
      * destruct (firstn_prefix (positives filled_slots) _ _ Hn) as [t ->]. eauto.
Qed.


(* ================================================================== *)
(** ** Further properties of the slot extractor *)

(** What the year pattern matches: ["19"] or ["20"] and two decimal digits
    of any script. *)
Lemma year_match_shape prev s rest :
  match_here year_re prev s = Some rest ->
  exists a b c d,
    s = [a; b; c; d] ++ rest
    /\ ((a = 49 /\ b = 57) \/ (a = 50 /\ b = 48))
    /\ is_decimal c = true /\ is_decimal d = true.
Proof.
  unfold match_here, year_re.
  cbn [rmatch].
  destruct (xorb (word_opt prev) (word_opt (hd_error s))); [|discriminate].
  change (u "19") with [49; 57]. change (u "20") with [50; 48].
  destruct s as [|a [|b [|c [|d s']]]]; cbn [lit_match];
    repeat match goal with
    | |- context [if ?x =? ?y then _ else _] => destruct (N.eqb_spec x y); subst
    | |- context [if is_decimal ?x then _ else _] => destruct (is_decimal x) eqn:?
    | |- context [if xorb ?x ?y then _ else _] => destruct (xorb x y)
    end; try discriminate;
    intros [= <-];
    match goal with |- exists a b c d, ?a' :: ?b' :: ?c' :: ?d' :: ?r = _ /\ _ =>
      exists a', b', c', d' end;
    (split; [reflexivity|]); (split; [auto|]); split; assumption.
Qed.

(** [int] reads such a match, and [str] writes the year back as ["19"] or
    ["20"] and two ASCII digits. *)
Lemma year_match_int a b c d :
  ((a = 49 /\ b = 57) \/ (a = 50 /\ b = 48)) ->
  is_decimal c = true -> is_decimal d = true ->
  exists y, int [a; b; c; d] = Some y /\ is_year_text (of_int y) = true.
Proof.
  intros Hab Hc Hd.
  assert (Ha : is_decimal a = true /\ is_decimal b = true)
    by (destruct Hab as [[-> ->]|[-> ->]]; split; reflexivity).
  destruct Ha as [Ha Hb].
  rewrite int_short by (cbn [List.length]; lia).
  unfold int_literal. rewrite strip_with_id.
  2:{ cbn [forallb]. rewrite !decimal_not_int_space by assumption. reflexivity. }
  destruct (decimal_not_sign a Ha) as [-> ->].
  unfold is_decimal in Hc, Hd.
  destruct (decimal_value c) as [dc|] eqn:Ec; [|discriminate].
  destruct (decimal_value d) as [dd|] eqn:Ed; [|discriminate].
  cbn [digits_acc].
  destruct Hab as [[-> ->]|[-> ->]];
    change (decimal_value 49) with (Some Dg1); change (decimal_value 57) with (Some Dg9);
    change (decimal_value 50) with (Some Dg2); change (decimal_value 48) with (Some Dg0);
    rewrite Ec, Ed; eexists; (split; [reflexivity|]);
    destruct dc, dd; vm_compute; reflexivity.
Qed.

Lemma year_search_shape s : forall prev g,
  search_from year_re prev s = Some g ->
  exists a b c d,
    g = [a; b; c; d]
    /\ ((a = 49 /\ b = 57) \/ (a = 50 /\ b = 48))
    /\ is_decimal c = true /\ is_decimal d = true.
Proof.
  induction s as [|x s IH]; intros prev g; rewrite search_from_eq;
    destruct (match_here year_re prev _) as [rest|] eqn:E;
    try discriminate; try apply IH.
  all: apply year_match_shape in E as (a & b & c & d & E & Hab & Hc & Hd).
  - discriminate E.
  - rewrite E, length_app.
    replace (List.length [a; b; c; d] + List.length rest - List.length rest)%nat
      with 4%nat by (cbn [List.length]; lia).
    cbn [firstn app]. intros [= <-].
    exists a, b, c, d. auto.
Qed.

(** The year that [re.findall] hands to [int] is always read, and stored as
    a year text. *)
Lemma year_search_stored s g :
  re_search year_re s = Some g ->
  exists y, int g = Some y /\ is_year_text (of_int y) = true.
Proof.
  intros E. apply year_search_shape in E as (a & b & c & d & -> & Hab & Hc & Hd).
  now apply year_match_int.
Qed.

(** Every invariant of the mapping that holds of the empty mapping and is
    kept when an allowed value is stored holds of the result. *)
Lemma identify_slots_invariant (P : dict -> Prop) :
  P [] ->
  (forall k v d, allowed_value k v -> P d -> P (dict_set k v d)) ->
  forall user_input,
    exists filled,
      identify_slots user_input = Ok (filled, missing_of filled) /\ P filled.
Proof.
  intros Hnil Hset user_input. unfold identify_slots.
  set (text := lower user_input).
  assert (Hg : P (detect_genre text [])).
  { unfold detect_genre.
    destruct (find _ GENRE_SYNONYMS) as [[k v]|] eqn:F; [|exact Hnil].
    apply Hset; [|exact Hnil]. left. split; [reflexivity|].
    apply find_In in F. now apply (in_map snd) in F. }
  assert (Hm : P (detect_mood text (detect_genre text []))).
  { unfold detect_mood.
    destruct (find _ MOOD_KEYWORDS) as [[k v]|] eqn:F; [|exact Hg].
    apply Hset; [|exact Hg]. right; left. split; [reflexivity|].
    apply find_In in F. now apply (in_map fst) in F. }
  assert (Hd : P (detect_director text (detect_mood text (detect_genre text [])))).
  { unfold detect_director.
    destruct (find _ MOVIE_DB) as [m|] eqn:F; [|exact Hm].
    apply Hset; [|exact Hm]. right; right; left. split; [reflexivity|].
    apply find_In in F. now apply in_map. }
  set (d3 := detect_director text (detect_mood text (detect_genre text []))) in *.
  assert (He : exists d4, detect_release_era user_input text d3 = Ok d4 /\ P d4).
  { unfold detect_release_era.
    destruct (re_search year_re user_input) as [g|] eqn:E.
    - destruct (year_search_stored _ _ E) as (y & -> & Hy).
      eexists. split; [reflexivity|]. apply Hset; [|exact Hd].
      do 3 right; left. split; [reflexivity|]. now right.
    - destruct (find _ (map fst ERA_KEYWORDS)) as [era|] eqn:F; [|eauto].
      eexists. split; [reflexivity|]. apply Hset; [|exact Hd].
      do 3 right; left. split; [reflexivity|]. left. now apply find_In in F. }
  destruct He as (d4 & -> & H4). cbn [bind].
  eexists. split; [reflexivity|].
  assert (H5 : P (detect_language_catalog text d4)).
  { unfold detect_language_catalog.
    destruct (find _ MOVIE_DB) as [m|] eqn:F; [|exact H4].
    apply Hset; [|exact H4]. do 4 right; left. split; [reflexivity|].
    apply find_In in F. unfold MOVIE_DB in F. cbn [In] in F.
    destruct F as [<-|[<-|[<-|[<-|[<-|[]]]]]]; cbn [In language];
      first [left; reflexivity | right; left; reflexivity]. }
  assert (H6 : P (detect_language_words text (detect_language_catalog text d4))).
  { unfold detect_language_words.
    destruct (str_in (u "korean") text), (str_in (u "english") text);
      repeat (apply Hset; [do 4 right; left; split; [reflexivity|]; cbn [In]; auto|]);
      exact H5. }
  unfold detect_runtime.
  destruct (re_test short_re text), (re_test long_re text);
    repeat (apply Hset; [do 5 right; split; [reflexivity|]; cbn [In]; auto|]);
    exact H6.
Qed.

Lemma dict_get_set (k k0 v : str) (d : dict) :
  dict_get k (dict_set k0 v d) = if str_eqb k0 k then Some v else dict_get k d.
Proof.
  destruct (str_eqb k0 k) eqn:E.
  - apply str_eqb_eq in E. subst. apply dict_get_set_same.
  - apply dict_get_set_other. now apply str_eqb_neq.
Qed.

Ltac allowed_cases H :=
  destruct H as [[Hk H]|[[Hk H]|[[Hk H]|[[Hk H]|[[Hk H]|[Hk H]]]]]];
  try discriminate Hk.

(** X8. The values [identify_slots] stores are normalized: the genre is a
    canonical label of the synonym table, the mood a mood name, the director
    a director of the catalog, the language English or Korean, the runtime
    short or long, and the release era an era label or a four-digit year
    text that starts with 19 or 20. *)
Theorem identify_slots_values_normalized (user_input : str) :
  exists filled missing,
    identify_slots user_input = Ok (filled, missing)
    /\ (forall v, dict_get (u "genre") filled = Some v ->
          In v [u "Sci-Fi"; u "Action"; u "Drama"; u "Romance"; u "Musical";
                u "Comedy"; u "Thriller"; u "Sci-Fi/Action"])
    /\ (forall v, dict_get (u "mood") filled = Some v ->
          In v [u "fun"; u "serious"; u "emotional"; u "mind-bending"; u "blockbuster"])
    /\ (forall v, dict_get (u "director") filled = Some v ->
          In v [u "Christopher Nolan"; u "Bong Joon Ho"; u "Joss Whedon";
                u "Damien Chazelle"])
    /\ (forall v, dict_get (u "release_era") filled = Some v ->
          In v [u "1990s"; u "2000s"; u "2010s"; u "2020s"; u "classic"]
          \/ is_year_text v = true)
    /\ (forall v, dict_get (u "language") filled = Some v ->
          In v [u "English"; u "Korean"])
    /\ (forall v, dict_get (u "runtime") filled = Some v ->
          In v [u "short"; u "long"]).
Proof.
  destruct (identify_slots_invariant
              (fun d => forall k v, dict_get k d = Some v -> allowed_value k v))
    with (user_input := user_input) as (f & E & H).
  { intros k v [=]. }
  { intros k v d Hkv Hd k' v'. rewrite dict_get_set.
    destruct (str_eqb k k') eqn:Ek.
    - apply str_eqb_eq in Ek. subst k'. now intros [= <-].
    - apply Hd. }
  exists f, (missing_of f). split; [exact E|].
  repeat split; intros v Hv; apply H in Hv; allowed_cases Hv.
  - cbn [map snd GENRE_SYNONYMS In] in Hv. cbn [In].
    repeat (destruct Hv as [<-|Hv]; [tauto|]). destruct Hv.
  - exact Hv.
  - cbn [map director MOVIE_DB In] in Hv. cbn [In].
    repeat (destruct Hv as [<-|Hv]; [tauto|]). destruct Hv.
  - exact Hv.
  - exact Hv.
  - exact Hv.
Qed.

Lemma dict_keys_set_eq (k v : str) (d : dict) :
  dict_keys (dict_set k v d)
  = if dict_mem k d then dict_keys d else dict_keys d ++ [k].
Proof.
  unfold dict_mem. induction d as [|[k' v'] d IH]; cbn [dict_set dict_get dict_keys map app].
  - reflexivity.
  - destruct (str_eqb k' k); cbn [map fst]; [reflexivity|].
    fold (dict_keys (dict_set k v d)). rewrite IH.
    destruct (dict_get k d); reflexivity.
Qed.

Lemma NoDup_slot_names : NoDup slot_names.
Proof.
  vm_compute.
  repeat constructor; cbn [In]; intros H;
    repeat (destruct H as [H|H]; [discriminate H|]); exact H.
Qed.

(** X13. [identify_slots] splits the six slots: no slot name is stored
    twice, none is listed twice as missing, every slot is stored or missing
    and none is both, so the two sizes add up to six. *)
Theorem identify_slots_splits_the_slots (user_input : str) :
  exists filled missing,
    identify_slots user_input = Ok (filled, missing)
    /\ NoDup (dict_keys filled)
    /\ NoDup missing
    /\ (forall k, In k slot_names ->
          (In k (dict_keys filled) /\ ~ In k missing)
          \/ (~ In k (dict_keys filled) /\ In k missing))
    /\ (List.length (dict_keys filled) + List.length missing = 6)%nat.
Proof.
  destruct (identify_slots_invariant
              (fun d => NoDup (dict_keys d)
                        /\ forall k, In k (dict_keys d) -> In k slot_names))
    with (user_input := user_input) as (f & E & Hnd & Hsub).
  { split; [constructor | intros k []]. }
  { intros k v d Hkv [Hnd Hsub]. rewrite dict_keys_set_eq.
    destruct (dict_mem k d) eqn:Em; [split; assumption|]. split.
    - apply NoDup_app; repeat split; auto.
      + repeat constructor. intros [].
      + intros x Hx [<-|[]]. apply dict_mem_keys in Hx. congruence.
    - intros x Hx. apply in_app_or in Hx as [Hx|[<-|[]]]; [auto|].
      allowed_cases Hkv; subst; vm_compute; tauto. }
  exists f, (missing_of f). split; [exact E|]. split; [exact Hnd|].
  assert (Hm : NoDup (missing_of f)) by (apply NoDup_filter, NoDup_slot_names).
  split; [exact Hm|]. split.
  - intros k Hk. rewrite missing_of_In.
    destruct (dict_mem k f) eqn:Em.
    + left. apply dict_mem_keys in Em. tauto.
    + right. assert (~ In k (dict_keys f)).
      { intros Hin. apply dict_mem_keys in Hin. congruence. }
      tauto.
  - assert (Hp : Permutation (dict_keys f)
                   (filter (fun k => dict_mem k f) slot_names)).
    { apply NoDup_Permutation; [exact Hnd | apply NoDup_filter, NoDup_slot_names|].
      intros k. rewrite filter_In, dict_mem_keys. split; [auto | tauto]. }
    rewrite (Permutation_length Hp). unfold missing_of.
    rewrite filter_length. reflexivity.
Qed.

(* ================================================================== *)
(** ** Further properties of the clarification policy *)

Lemma list_mem_missing f p :
  In p slot_names -> list_mem p (missing_of f) = negb (dict_mem p f).
Proof.
  intros Hp.
  destruct (list_mem p (missing_of f)) eqn:E1, (dict_mem p f) eqn:E2; try reflexivity.
  - apply list_mem_In, missing_of_In in E1 as [_ Hn].
    apply dict_mem_keys in E2. contradiction.
  - assert (H : In p (missing_of f)).
    { apply missing_of_In. split; [exact Hp|]. intros Hin.
      apply dict_mem_keys in Hin. congruence. }
    apply list_mem_In in H. congruence.
Qed.

Lemma find_missing f :
  find (fun p => list_mem p (missing_of f)) priority
  = find (fun p => negb (dict_mem p f)) priority.
Proof.
  unfold priority. cbn [find].
  rewrite !list_mem_missing by (vm_compute; tauto). reflexivity.
Qed.

(** X9. The question is the one of the first slot, in the order genre,
    mood, release_era, director, language, runtime, that was not filled. *)
Theorem asks_about_first_unfilled_slot (user_input : str) :
  exists filled missing,
    identify_slots user_input = Ok (filled, missing)
    /\ forall k,
         find (fun p => negb (dict_mem p filled))
              [u "genre"; u "mood"; u "release_era"; u "director"; u "language";
               u "runtime"] = Some k ->
         exists q,
           In (k, q) (combine priority six_questions)
           /\ get_ai_response user_input = Ok q.
Proof.
  destruct (get_ai_response_policy user_input) as (f & E & _ & ->).
  exists f, (missing_of f). split; [exact E|]. intros k Hk.
  change [u "genre"; u "mood"; u "release_era"; u "director"; u "language"; u "runtime"]
    with priority in Hk.
  pose proof Hk as Hfind. apply find_some in Hk as [Hin Hneg].
  unfold ask_missing. rewrite find_missing, Hfind.
  assert (Hne : is_nil (missing_of f) = false).
  { assert (Hm : In k (missing_of f)).
    { apply missing_of_In. split; [exact Hin|]. intros Hc.
      apply dict_mem_keys in Hc. rewrite Hc in Hneg. discriminate. }
    destruct (missing_of f); [destruct Hm | reflexivity]. }
  rewrite Hne. cbn [bind].
  unfold priority in Hin. cbn [In] in Hin.
  destruct Hin as [<-|[<-|[<-|[<-|[<-|[<-|[]]]]]]];
    (eexists; split; [|vm_compute; reflexivity]); vm_compute; tauto.
Qed.

(** X10. Two questions of the confirmation cascade are never asked: with
    no slot missing the director is filled, so neither the mood-strength
    question nor the newer-or-older question is returned. *)
Theorem mood_and_newer_questions_unreachable (user_input : str) :
  exists q,
    get_ai_response user_input = Ok q
    /\ q <> u "Thanks — one quick check: do you prefer newer releases or are older films okay?"
    /\ forall mood,
         q <> u "You mentioned '" ++ mood
              ++ u "'. Would you prefer a milder or a stronger version of that mood?".
Proof.
  destruct (get_ai_response_cases user_input) as (q & E & [Hin | [d ->]]).
  - exists q. split; [exact E|].
    unfold six_questions in Hin. cbn [In] in Hin.
    destruct Hin as [<-|[<-|[<-|[<-|[<-|[<-|[<-|[]]]]]]]];
      (split; [vm_compute; discriminate | intros mood; norm_lits; vm_compute; discriminate]).
  - eexists. split; [exact E|].
    unfold Q_same_director. norm_lits. split; [discriminate | intros mood; discriminate].
Qed.

(* ================================================================== *)
(** ** Substrings, and what fills the director and language slots *)

Lemma startswith_iff p s : startswith p s = true <-> exists b, s = p ++ b.
Proof.
  revert s. induction p as [|x p IH]; intros s; cbn [startswith].
  - split; [intros _; exists s; reflexivity | reflexivity].
  - destruct s as [|y s].
    + split; [discriminate | intros [b [=]]].
    + rewrite andb_true_iff, N.eqb_eq, IH. split.
      * intros [-> [b ->]]. exists b. reflexivity.
      * intros [b [= -> ->]]. split; [reflexivity | exists b; reflexivity].
Qed.

(** [p in s] holds exactly when [s] is some text, [p], some text. *)
Lemma str_in_iff p s : str_in p s = true <-> exists a b, s = a ++ p ++ b.
Proof.
  induction s as [|y s IH].
  - cbn [str_in]. rewrite orb_false_r, startswith_iff. split.
    + intros [b ->]. exists [], b. reflexivity.
    + intros (a & b & E). destruct a; [exists b; exact E | discriminate].
  - change (str_in p (y :: s)) with (startswith p (y :: s) || str_in p s).
    rewrite orb_true_iff, startswith_iff, IH. split.
    + intros [[b ->]|(a & b & ->)]; [exists [], b | exists (y :: a), b]; reflexivity.
    + intros (a & b & E). destruct a as [|x a].
      * left. exists b. exact E.
      * right. injection E as -> ->. exists a, b. reflexivity.
Qed.

Lemma str_in_part (a p b s : str) :
  str_in (a ++ p ++ b) s = true -> str_in p s = true.
Proof.
  rewrite !str_in_iff. intros (x & y & ->).
  exists (x ++ a), (b ++ y). now rewrite <- !app_assoc.
Qed.

Lemma orb_implied (x y : bool) : (y = true -> x = true) -> x || y = x.
Proof. destruct x, y; intros H; try reflexivity. now rewrite H. Qed.

Lemma detect_release_era_other user_input text d d' k :
  detect_release_era user_input text d = Ok d' ->
  k <> k_release_era -> dict_get k d' = dict_get k d.
Proof.
  unfold detect_release_era. intros E Hk.
  destruct (re_search year_re user_input) as [g|].
  - destruct (int g); [|discriminate]. injection E as <-.
    apply dict_get_set_other. congruence.
  - destruct (find _ (map fst ERA_KEYWORDS)); injection E as <-;
      [apply dict_get_set_other; congruence | reflexivity].
Qed.

(** The stages of [identify_slots] chained. *)
Lemma identify_slots_pipeline user_input :
  let text := lower user_input in
  let d3 := detect_director text (detect_mood text (detect_genre text [])) in
  exists d4,
    detect_release_era user_input text d3 = Ok d4
    /\ identify_slots user_input = Ok (finish_slots text d4).
Proof.
  intros text d3.
  destruct (detect_release_era_inv user_input text d3) as (d4 & E & _).
  { apply detect_director_inv, detect_mood_inv, detect_genre_inv, slots_inv_empty. }
  exists d4. split; [exact E|].
  unfold identify_slots. fold text. fold d3. rewrite E. reflexivity.
Qed.

Ltac norm_needles text :=
  repeat match goal with
  | |- context [str_in ?p text] =>
      progress (let x := eval vm_compute in p in change p with x)
  end.

Lemma detect_director_table text d :
  dict_get k_director (detect_director text d)
  = if str_in (u "nolan") text then Some (u "Christopher Nolan")
    else if str_in (u "ho") text then Some (u "Bong Joon Ho")
    else if str_in (u "whedon") text then Some (u "Joss Whedon")
    else if str_in (u "chazelle") text then Some (u "Damien Chazelle")
    else dict_get k_director d.
Proof.
  assert (H1 : str_in (u "christopher nolan") text = true -> str_in (u "nolan") text = true)
    by apply (str_in_part (u "christopher ") (u "nolan") []).
  assert (H2 : str_in (u "bong joon ho") text = true -> str_in (u "ho") text = true)
    by apply (str_in_part (u "bong joon ") (u "ho") []).
  assert (H3 : str_in (u "joss whedon") text = true -> str_in (u "whedon") text = true)
    by apply (str_in_part (u "joss ") (u "whedon") []).
  assert (H4 : str_in (u "damien chazelle") text = true -> str_in (u "chazelle") text = true)
    by apply (str_in_part (u "damien ") (u "chazelle") []).
  apply orb_implied in H1, H2, H3, H4.
  unfold detect_director, MOVIE_DB. cbn [find]. cbv zeta.
  revert H1 H2 H3 H4. norm_needles text. intros H1 H2 H3 H4.
  rewrite H1, H2, H3, H4. clear H1 H2 H3 H4.
  destruct (str_in _ text); [apply dict_get_set_same|].
  destruct (str_in _ text); [apply dict_get_set_same|].
  destruct (str_in _ text); [apply dict_get_set_same|].
  destruct (str_in _ text); [apply dict_get_set_same | reflexivity].
Qed.

Lemma finish_slots_other text d k :
  k <> k_language -> k <> k_runtime ->
  dict_get k (fst (finish_slots text d)) = dict_get k d.
Proof.
  intros H1 H2. unfold finish_slots. cbn [fst].
  rewrite detect_runtime_other by exact H2.
  unfold detect_language_words, detect_language_catalog.
  destruct (str_in (u "english") text), (str_in (u "korean") text),
           (find _ MOVIE_DB);
    rewrite ?dict_get_set_other by congruence; reflexivity.
Qed.

Lemma early_stages_other text k :
  k <> k_genre -> k <> k_mood ->
  dict_get k (detect_mood text (detect_genre text [])) = None.
Proof.
  intros H1 H2. unfold detect_mood, detect_genre.
  destruct (find _ MOOD_KEYWORDS) as [[? ?]|], (find _ GENRE_SYNONYMS) as [[? ?]|];
    rewrite ?dict_get_set_other by congruence; reflexivity.
Qed.

(** X14. What fills the director slot: a last name of the catalog found
    anywhere in the lowercased input, with Nolan tried first and the two
    letters ["ho"] second (so the inside of a word such as "show" selects
    Bong Joon Ho); without any of the four names the slot stays unfilled. *)
Theorem director_slot_decision_table (user_input : str) :
  let text := lower user_input in
  exists filled missing,
    identify_slots user_input = Ok (filled, missing)
    /\ dict_get (u "director") filled
       = if str_in (u "nolan") text then Some (u "Christopher Nolan")
         else if str_in (u "ho") text then Some (u "Bong Joon Ho")
         else if str_in (u "whedon") text then Some (u "Joss Whedon")
         else if str_in (u "chazelle") text then Some (u "Damien Chazelle")
         else None.
Proof.
  intros text.
  destruct (identify_slots_pipeline user_input) as (d4 & E4 & E). fold text in E4, E.
  rewrite E. exists (fst (finish_slots text d4)), (snd (finish_slots text d4)).
  split; [now destruct (finish_slots text d4)|].
  change (u "director") with k_director.
  rewrite finish_slots_other by discriminate.
  rewrite (detect_release_era_other _ _ _ _ k_director E4) by discriminate.
  rewrite detect_director_table.
  now rewrite early_stages_other by discriminate.
Qed.

Lemma detect_language_table text d :
  dict_get k_language d = None ->
  dict_get k_language (detect_language_words text (detect_language_catalog text d))
  = if str_in (u "english") text then Some (u "English")
    else if str_in (u "korean") text then Some (u "Korean")
    else None.
Proof.
  intros Hd. unfold detect_language_words.
  destruct (str_in (u "english") text) eqn:Een; [apply dict_get_set_same|].
  destruct (str_in (u "korean") text) eqn:Eko; [apply dict_get_set_same|].
  unfold detect_language_catalog, MOVIE_DB. cbn [find]. cbv zeta.
  revert Een Eko. norm_needles text. intros Een Eko.
  rewrite Een, Eko. cbn [negb andb is_empty]. exact Hd.
Qed.

(** X15. What fills the language slot: English when ["english"] occurs in
    the lowercased input, else Korean when ["korean"] occurs, else nothing;
    no other language is ever detected. *)
Theorem language_slot_decision_table (user_input : str) :
  let text := lower user_input in
  exists filled missing,
    identify_slots user_input = Ok (filled, missing)
    /\ dict_get (u "language") filled
       = if str_in (u "english") text then Some (u "English")
         else if str_in (u "korean") text then Some (u "Korean")
         else None.
Proof.
  intros text.
  destruct (identify_slots_pipeline user_input) as (d4 & E4 & E). fold text in E4, E.
  rewrite E. exists (fst (finish_slots text d4)), (snd (finish_slots text d4)).
  split; [now destruct (finish_slots text d4)|].
  change (u "language") with k_language.
  unfold finish_slots. cbn [fst].
  rewrite detect_runtime_other by discriminate.
  apply detect_language_table.
  rewrite (detect_release_era_other _ _ _ _ k_language E4) by discriminate.
  unfold detect_director.
  destruct (find _ MOVIE_DB);
    rewrite ?dict_get_set_other by discriminate;
    now apply early_stages_other.
Qed.

(* ================================================================== *)
(** ** What fills the genre and mood slots *)

Lemma lit_match_spec l : forall prev s p s',
  lit_match l prev s = Some (p, s') <-> s = l ++ s' /\ p = last (map Some l) prev.
Proof.
  induction l as [|x l IH]; intros prev s p s'; cbn [lit_match].
  - cbn [app map last]. split; [intros [= -> ->]; auto | intros [-> ->]; reflexivity].
  - destruct s as [|y s].
    + split; [discriminate | intros [[=] _]].
    + destruct (N.eqb_spec x y) as [->|Hne].
      * rewrite IH. cbn [map]. rewrite last_cons. split.
        -- intros [-> ->]. auto.
        -- intros [[= ->] ->]. auto.
      * split; [discriminate | intros [[= E _] _]; congruence].
Qed.

Lemma last_some_word key prev :
  key <> [] -> word_opt (last (map Some key) prev) = word_opt (last (map Some key) None).
Proof.
  destruct key as [|c key]; [congruence|]. intros _. cbn [map]. now rewrite !last_cons.
Qed.

Lemma word_re_match_here key prev s rest :
  word_delimited key = true ->
  (match_here (word_re key) prev s = Some rest
   <-> s = key ++ rest /\ word_opt prev = false /\ starts_with_word rest = false).
Proof.
  unfold word_delimited, starts_with_word. intros Hk.
  apply andb_true_iff in Hk as [Hhd Hlast].
  assert (Hne : key <> []) by (destruct key; [discriminate Hhd | discriminate]).
  unfold match_here, word_re. cbn [rmatch]. split.
  - destruct (xorb (word_opt prev) (word_opt (hd_error s))) eqn:Ex; [|discriminate].
    destruct (lit_match key prev s) as [[p s']|] eqn:El; [|discriminate].
    apply lit_match_spec in El as [-> ->].
    rewrite last_some_word, Hlast in * by exact Hne.
    destruct (xorb true (word_opt (hd_error s'))) eqn:Ex'; [|discriminate].
    intros [= ->]. split; [reflexivity|].
    destruct key as [|c key]; [congruence|]. cbn [app hd_error] in Ex.
    cbn [hd_error] in Hhd. rewrite Hhd in Ex.
    destruct (word_opt prev), (word_opt (hd_error rest)); try discriminate; auto.
  - intros (-> & Hp & Hr).
    assert (Hh : word_opt (hd_error (key ++ rest)) = true).
    { destruct key as [|c key]; [congruence | exact Hhd]. }
    rewrite Hp, Hh. cbn [xorb].
    destruct (lit_match key prev (key ++ rest)) as [[p s']|] eqn:El.
    + apply lit_match_spec in El as [E ->].
      apply app_inv_head in E. subst s'.
      rewrite last_some_word, Hlast, Hr by exact Hne. reflexivity.
    + assert (H : lit_match key prev (key ++ rest)
                  = Some (last (map Some key) prev, rest))
        by (apply lit_match_spec; auto).
      congruence.
Qed.

(** What the search finds is a match at some position of the text. *)
Lemma search_from_found r s : forall prev g,
  search_from r prev s = Some g ->
  exists pre s' rest,
    s = pre ++ s' /\ match_here r (last (map Some pre) prev) s' = Some rest.
Proof.
  induction s as [|c s IH]; intros prev g; rewrite search_from_eq.
  - destruct (match_here r prev []) as [rest|] eqn:E; [|discriminate].
    intros _. exists [], [], rest. auto.
  - destruct (match_here r prev (c :: s)) as [rest|] eqn:E.
    + intros _. exists [], (c :: s), rest. auto.
    + intros H. apply IH in H as (pre & s' & rest & -> & H).
      exists (c :: pre), s', rest. split; [reflexivity|].
      cbn [map]. now rewrite last_cons.
Qed.

Lemma re_test_word_re key text :
  word_delimited key = true ->
  (re_test (word_re key) text = true <-> whole_word_in key text).
Proof.
  intros Hk. unfold whole_word_in, ends_in_word. split.
  - unfold re_test, re_search.
    destruct (search_from (word_re key) None text) as [g|] eqn:E; [|discriminate].
    intros _. apply search_from_found in E as (pre & s' & rest & -> & H).
    apply (word_re_match_here _ _ _ _ Hk) in H as (-> & Hp & Hr).
    exists pre, rest. auto.
  - intros (pre & post & -> & Hp & Hq).
    apply re_test_app.
    assert (H : match_here (word_re key) (last (map Some pre) None) (key ++ post)
                = Some post) by (apply (word_re_match_here _ _ _ _ Hk); auto).
    congruence.
Qed.

Lemma find_exists {A} (f : A -> bool) l x :
  In x l -> f x = true -> exists y, find f l = Some y.
Proof.
  intros Hin Hf. destruct (find f l) as [y|] eqn:E; [eauto|].
  apply (find_none _ _ E) in Hin. congruence.
Qed.

Lemma genre_keys_delimited key label :
  In (key, label) GENRE_SYNONYMS -> word_delimited key = true.
Proof.
  unfold GENRE_SYNONYMS. cbn [In]. intros H.
  repeat (destruct H as [[= <- <-]|H]; [vm_compute; reflexivity|]). destruct H.
Qed.

Lemma later_stages_genre_mood user_input k :
  k = k_genre \/ k = k_mood ->
  exists filled,
    identify_slots user_input = Ok (filled, missing_of filled)
    /\ dict_get k filled
       = dict_get k (detect_mood (lower user_input) (detect_genre (lower user_input) [])).
Proof.
  intros Hk.
  assert (Hne : k <> k_director /\ k <> k_release_era /\ k <> k_language /\ k <> k_runtime)
    by (destruct Hk as [-> | ->]; repeat split; discriminate).
  destruct Hne as (H1 & H2 & H3 & H4).
  destruct (identify_slots_pipeline user_input) as (d4 & E4 & E).
  rewrite E. exists (fst (finish_slots (lower user_input) d4)).
  split; [reflexivity|].
  rewrite finish_slots_other by assumption.
  rewrite (detect_release_era_other _ _ _ _ k E4) by assumption.
  unfold detect_director. destruct (find _ MOVIE_DB);
    rewrite ?dict_get_set_other by congruence; reflexivity.
Qed.

(** X16. The genre slot is filled exactly when a synonym of the table
    occurs in the lowercased input as a whole word, and the value stored is
    the label of such a synonym; a synonym inside a longer word does not
    count. *)
Theorem genre_slot_filled_by_whole_words (user_input : str) :
  let text := lower user_input in
  exists filled missing,
    identify_slots user_input = Ok (filled, missing)
    /\ (forall key label,
          In (key, label) GENRE_SYNONYMS -> whole_word_in key text ->
          exists v, dict_get (u "genre") filled = Some v)
    /\ (forall v,
          dict_get (u "genre") filled = Some v ->
          exists key, In (key, v) GENRE_SYNONYMS /\ whole_word_in key text).
Proof.
  intros text.
  destruct (later_stages_genre_mood user_input k_genre (or_introl eq_refl))
    as (f & E & Hg).
  fold text in Hg. exists f, (missing_of f). split; [exact E|].
  change (u "genre") with k_genre. rewrite Hg. clear Hg E.
  assert (Hm : forall d, dict_get k_genre (detect_mood text d) = dict_get k_genre d).
  { intros d. unfold detect_mood. destruct (find _ MOOD_KEYWORDS) as [[? ?]|];
      rewrite ?dict_get_set_other by discriminate; reflexivity. }
  rewrite Hm. unfold detect_genre. split.
  - intros key label Hin Hw.
    destruct (find_exists (fun kv => re_test (word_re (fst kv)) text)
                GENRE_SYNONYMS (key, label) Hin) as [[k' v'] ->].
    { cbn [fst]. apply re_test_word_re; [now apply (genre_keys_delimited key label) | exact Hw]. }
    rewrite dict_get_set_same. eauto.
  - intros v. destruct (find _ GENRE_SYNONYMS) as [[k' v']|] eqn:F; [|discriminate].
    rewrite dict_get_set_same. intros [= ->].
    apply find_some in F as [Hin Ht]. cbn [fst] in Ht.
    exists k'. split; [exact Hin|].
    apply re_test_word_re; [now apply (genre_keys_delimited k' v) | exact Ht].
Qed.

(** X17. The mood slot is filled exactly when a trigger word of the mood
    table occurs anywhere in the lowercased input, inside a longer word or
    not, and the value stored is a mood one of whose triggers occurs. *)
Theorem mood_slot_filled_by_substrings (user_input : str) :
  let text := lower user_input in
  exists filled missing,
    identify_slots user_input = Ok (filled, missing)
    /\ (forall mood triggers kw,
          In (mood, triggers) MOOD_KEYWORDS -> In kw triggers ->
          str_in kw text = true ->
          exists v, dict_get (u "mood") filled = Some v)
    /\ (forall v,
          dict_get (u "mood") filled = Some v ->
          exists triggers kw,
            In (v, triggers) MOOD_KEYWORDS /\ In kw triggers /\ str_in kw text = true).
Proof.
  intros text.
  destruct (later_stages_genre_mood user_input k_mood (or_intror eq_refl))
    as (f & E & Hg).
  fold text in Hg. exists f, (missing_of f). split; [exact E|].
  change (u "mood") with k_mood. rewrite Hg. clear Hg E.
  unfold detect_mood. split.
  - intros mood triggers kw Hin Hkw Hs.
    destruct (find_exists (fun mk => existsb (fun kw => str_in kw text) (snd mk))
                MOOD_KEYWORDS (mood, triggers) Hin) as [[k' v'] ->].
    { cbn [snd]. apply existsb_exists. eauto. }
    rewrite dict_get_set_same. eauto.
  - intros v. destruct (find _ MOOD_KEYWORDS) as [[k' v']|] eqn:F.
    + rewrite dict_get_set_same. intros [= ->].
      apply find_some in F as [Hin Ht]. cbn [snd] in Ht.
      apply existsb_exists in Ht as (kw & Hkw & Hs). eauto.
    + unfold detect_genre. destruct (find _ GENRE_SYNONYMS) as [[? ?]|];
        rewrite ?dict_get_set_other by discriminate; discriminate.
Qed.

(* ================================================================== *)
(** ** The prompt *)


Lemma str_in_refl a : str_in a a = true.
Proof. apply str_in_iff. exists [], []. now rewrite app_nil_r. Qed.






Lemma format_candidates_nil :
  _format_candidates_for_prompt [] = Ok (u "No strong candidates found in the local DB.").
Proof. reflexivity. Qed.






(* ================================================================== *)
(** ** What fills the release era, and the last branch of the policy *)

Lemma ascii_digit_cases c :
  in_range 48 57 c = true ->
  c = 48 \/ c = 49 \/ c = 50 \/ c = 51 \/ c = 52 \/ c = 53 \/ c = 54 \/ c = 55
  \/ c = 56 \/ c = 57.
Proof.
  unfold in_range. intros H. apply andb_true_iff in H as [H1 H2].
  apply N.leb_le in H1. apply N.leb_le in H2. lia.
Qed.

(** A year in ASCII digits is read by [int] and written back by [str]
    unchanged. *)
Lemma year_ascii_round_trip a b c d y :
  ((a = 49 /\ b = 57) \/ (a = 50 /\ b = 48)) ->
  in_range 48 57 c = true -> in_range 48 57 d = true ->
  int [a; b; c; d] = Some y -> of_int y = [a; b; c; d].
Proof.
  intros Hab Hc Hd. rewrite int_short by (cbn [List.length]; lia).
  apply ascii_digit_cases in Hc, Hd.
  destruct Hab as [[-> ->]|[-> ->]];
    repeat (destruct Hc as [->|Hc]); subst;
    repeat (destruct Hd as [->|Hd]); subst;
    vm_compute; intros [= <-]; reflexivity.
Qed.

Lemma detect_release_era_table user_input text d :
  exists d',
    detect_release_era user_input text d = Ok d'
    /\ match re_search year_re user_input with
       | Some year =>
           exists y,
             int year = Some y
             /\ dict_get k_release_era d' = Some (of_int y)
             /\ (forallb (in_range 48 57) year = true -> of_int y = year)
       | None =>
           dict_get k_release_era d'
           = if str_in (u "1990") text then Some (u "1990s")
             else if str_in (u "2000") text then Some (u "2000s")
             else if str_in (u "2010") text then Some (u "2010s")
             else if str_in (u "2020") text then Some (u "2020s")
             else if str_in (u "claic") text || str_in (u "classic") text
                  then Some (u "classic")
             else dict_get k_release_era d
       end.
Proof.
  unfold detect_release_era.
  destruct (re_search year_re user_input) as [g|] eqn:E.
  - destruct (year_search_shape _ _ _ E) as (a & b & c & e & -> & Hab & Hc & He).
    destruct (year_match_int a b c e Hab Hc He) as (y & Ey & _).
    rewrite Ey. eexists. split; [reflexivity|].
    exists y. split; [reflexivity|]. split; [apply dict_get_set_same|].
    cbn [forallb]. intros H.
    apply andb_true_iff in H as [_ H]. apply andb_true_iff in H as [_ H].
    apply andb_true_iff in H as [Hc' H]. apply andb_true_iff in H as [He' _].
    now apply year_ascii_round_trip.
  - assert (H1 : str_in (u "1990s") text = true -> str_in (u "1990") text = true)
      by apply (str_in_part [] (u "1990") (u "s")).
    assert (H2 : str_in (u "2000s") text = true -> str_in (u "2000") text = true)
      by apply (str_in_part [] (u "2000") (u "s")).
    assert (H3 : str_in (u "2010s") text = true -> str_in (u "2010") text = true)
      by apply (str_in_part [] (u "2010") (u "s")).
    assert (H4 : str_in (u "2020s") text = true -> str_in (u "2020") text = true)
      by apply (str_in_part [] (u "2020") (u "s")).
    apply orb_implied in H1, H2, H3, H4.
    unfold ERA_KEYWORDS. cbn [map fst find].
    revert H1 H2 H3 H4. norm_needles text. intros H1 H2 H3 H4.
    rewrite H1, H2, H3, H4. clear H1 H2 H3 H4.
    destruct (str_in _ text); [eexists; split; [reflexivity | apply dict_get_set_same]|].
    destruct (str_in _ text); [eexists; split; [reflexivity | apply dict_get_set_same]|].
    destruct (str_in _ text); [eexists; split; [reflexivity | apply dict_get_set_same]|].
    destruct (str_in _ text); [eexists; split; [reflexivity | apply dict_get_set_same]|].
    destruct (str_in _ text || str_in _ text);
      eexists; (split; [reflexivity|]); [apply dict_get_set_same | reflexivity].
Qed.

(** X18. What fills the release era.  With a match of the year pattern in
    the original input (leftmost; ["19"] or ["20"] and two decimal digits of
    any script, between word boundaries) the slot holds [str(int(match))]:
    [int] reads the match, and for a match in ASCII digits the stored text is
    the match itself.  Without a match the slot holds the first decade whose
    digits occur anywhere in the lowercased input, then ["classic"] when
    ["classic"] or ["claic"] (the label with every ['s'] removed) occurs;
    else nothing. *)
Theorem release_era_slot_decision_table (user_input : str) :
  let text := lower user_input in
  exists filled missing,
    identify_slots user_input = Ok (filled, missing)
    /\ match re_search year_re user_input with
       | Some year =>
           exists y,
             int year = Some y
             /\ dict_get (u "release_era") filled = Some (of_int y)
             /\ (forallb (in_range 48 57) year = true -> of_int y = year)
       | None =>
           dict_get (u "release_era") filled
           = if str_in (u "1990") text then Some (u "1990s")
             else if str_in (u "2000") text then Some (u "2000s")
             else if str_in (u "2010") text then Some (u "2010s")
             else if str_in (u "2020") text then Some (u "2020s")
             else if str_in (u "claic") text || str_in (u "classic") text
                  then Some (u "classic")
             else None
       end.
Proof.
  intros text.
  destruct (identify_slots_pipeline user_input) as (d4 & E4 & E). fold text in E4, E.
  rewrite E. exists (fst (finish_slots text d4)), (snd (finish_slots text d4)).
  split; [now destruct (finish_slots text d4)|].
  change (u "release_era") with k_release_era.
  rewrite finish_slots_other by discriminate.
  destruct (detect_release_era_table user_input text
              (detect_director text (detect_mood text (detect_genre text []))))
    as (d' & E' & Hd').
  rewrite E' in E4. injection E4 as <-.
  destruct (re_search year_re user_input) as [year|]; [exact Hd'|].
  rewrite Hd'.
  assert (H0 : dict_get k_release_era
                 (detect_director text (detect_mood text (detect_genre text []))) = None).
  { unfold detect_director. destruct (find _ MOVIE_DB);
      rewrite ?dict_get_set_other by discriminate;
      now apply early_stages_other. }
  now rewrite H0.
Qed.

(** X19. When [identify_slots] fills all six slots and the genre value
    does not contain ["Action"], [get_ai_response] asks whether the user
    wants the filled director specifically. *)
Theorem all_filled_other_genre_question (user_input : str) (filled : dict)
    (missing : list str) (g d : str) :
  identify_slots user_input = Ok (filled, missing) ->
  forallb (fun k => dict_mem k filled) slot_names = true ->
  dict_get k_genre filled = Some g ->
  str_in (u "Action") g = false ->
  dict_get k_director filled = Some d ->
  get_ai_response user_input
  = Ok (u "Do you want something by " ++ d
        ++ u " specifically, or films with a similar tone?").
Proof.
  intros E Hall Hg Hact Hd.
  destruct (get_ai_response_policy user_input) as (f & E' & _ & ->).
  rewrite E in E'. injection E' as -> _.
  apply missing_of_nil in Hall. rewrite Hall.
  unfold ask_missing. cbn [is_nil bind]. unfold confirm.
  assert (dict_is_empty f = false) as -> by (destruct f; [discriminate | reflexivity]).
  rewrite Hg, Hact, andb_false_r. unfold dict_mem. rewrite Hd. reflexivity.
Qed.

End Assistant.

(* ================================================================== *)
(** ** The model on sample inputs *)

(** The evaluations below are on texts of Latin-1 characters (the em dash
    of the prompt and of one question is copied, never classified), which
    no function looks up in the tables above U+00FF; they are run with the
    tables that know no character there and with the default limit of
    [int()]. *)
#[local] Existing Instance latin1_only.

Example int_examples :
  map int [u "1_2"; u "_12"; u "12_"; u "1__2"; u "+12"; u "-12"; u " 12 ";
           u "- 12"; u ""; u "+"; u "0012"; u "2010"; u "1990s"; [178; 178; 178; 178]]
  = [Some 12; None; None; None; Some 12; Some (-12); Some 12;
     None; None; None; Some 12; Some 2010; None; None]%Z.
Proof. vm_compute. reflexivity. Qed.

(** The default limit of 4300 digits counts leading zeros, and the scorer
    then takes the value for an era label. *)
Example int_limit :
  int (repeat 48 (N.to_nat 4296) ++ u "2010") = Some 2010%Z
  /\ int (repeat 48 (N.to_nat 4297) ++ u "2010") = None
  /\ retrieve_candidates [(k_release_era, repeat 48 (N.to_nat 4296) ++ u "2010")] 1
     = Ok [inception]
  /\ retrieve_candidates [(k_release_era, repeat 48 (N.to_nat 4297) ++ u "2010")] 1
     = Ok [parasite].
Proof. vm_compute. repeat split. Qed.

Example of_int_examples :
  map of_int [0; 7; 2010; -45]%Z = [u "0"; u "7"; u "2010"; u "-45"].
Proof. vm_compute. reflexivity. Qed.

Example u_dash : u "a — b" = [97; 32; 8212; 32; 98].
Proof. vm_compute. reflexivity. Qed.

Example identify_fun_action :
  identify_slots (u "Recommend a fun action movie")
  = Ok ([(k_genre, u "Action"); (k_mood, u "fun")],
        [k_release_era; k_director; k_language; k_runtime]).
Proof. vm_compute. reflexivity. Qed.

Example identify_all_six :
  identify_slots (u "A long, fun action movie by Nolan from 2010 in English")
  = Ok ([(k_genre, u "Action"); (k_mood, u "fun"); (k_director, u "Christopher Nolan");
         (k_release_era, u "2010"); (k_language, u "English"); (k_runtime, u "long")],
        []).
Proof. vm_compute. reflexivity. Qed.

Example identify_minute :
  identify_slots (u "minute")
  = Ok ([], [k_genre; k_mood; k_release_era; k_director; k_language; k_runtime]).
Proof. vm_compute. reflexivity. Qed.

Example identify_classic :
  identify_slots (u "a CLASSIC, 90 min")
  = Ok ([(k_release_era, u "classic"); (k_runtime, u "long")],
        [k_genre; k_mood; k_director; k_language]).
Proof. vm_compute. reflexivity. Qed.

Example retrieve_genre_action :
  retrieve_candidates [(k_genre, u "Action")] 3
  = Ok [the_avengers; inception; the_dark_knight].
Proof. vm_compute. reflexivity. Qed.

Example retrieve_no_match :
  retrieve_candidates [(k_genre, u "Western")] 2 = Ok [parasite; la_la_land].
Proof. vm_compute. reflexivity. Qed.

Example retrieve_era_label :
  retrieve_candidates [(k_release_era, u "2000s")] 3 = Ok [the_dark_knight].
Proof. vm_compute. reflexivity. Qed.

Example retrieve_mood_serious :
  retrieve_candidates [(k_mood, u "serious"); (k_release_era, u "2019")] 3
  = Ok [parasite; la_la_land; the_avengers].
Proof. vm_compute. reflexivity. Qed.

Example response_recommend_something :
  get_ai_response (u "Recommend something") = Ok Q_genre.
Proof. vm_compute. reflexivity. Qed.

Example response_fun_action :
  get_ai_response (u "Recommend a fun action movie") = Ok Q_release_era.
Proof. vm_compute. reflexivity. Qed.

Example prompt_has_all_components :
  exists prompt,
    build_dynamic_prompt (u "Any movies by Nolan?") [(k_director, u "Christopher Nolan")]
      [Entry (Some (VStr (u "Inception"))) (Some (VInt 2010)) None None;
       Entry (Some (VStr (u "The Dark Knight"))) (Some (VInt 2008)) None None]
    = Ok prompt
    /\ str_in (u "movie expert") prompt = true
    /\ str_in (u "- director: Christopher Nolan") prompt = true
    /\ str_in (u "- Inception (2010) — genre: None, director: None") prompt = true.
Proof. eexists. split; [reflexivity|]. vm_compute. repeat split. Qed.

Example prompt_without_title :
  build_dynamic_prompt (u "Any movies by Nolan?") []
    [Entry None (Some (VInt 2010)) None None]
  = Raise KeyError.
Proof. vm_compute. reflexivity. Qed.

(** Texts with characters beyond U+00FF, run with the excerpt of the
    tables: a letter after ["min"] or ["action"] leaves no word boundary;
    the Kelvin sign lowers to [k]; a year in Arabic-Indic digits is read by
    [int] and stored in ASCII; circled digits pass [isdigit] and fail
    [int]; [strip] drops the ideographic space. *)
Example letter_after_min :
  identify_slots (T := excerpt) (u "minд")
  = Ok ([], [k_genre; k_mood; k_release_era; k_director; k_language; k_runtime]).
Proof. vm_compute. reflexivity. Qed.

Example letter_after_action :
  identify_slots (T := excerpt) (u "actionō")
  = Ok ([], [k_genre; k_mood; k_release_era; k_director; k_language; k_runtime]).
Proof. vm_compute. reflexivity. Qed.

Example kelvin_sign_lowers_to_k :
  lower (T := excerpt) ([8490] ++ u "orean") = u "korean"
  /\ identify_slots (T := excerpt) ([8490] ++ u "orean")
     = Ok ([(k_language, u "Korean")],
           [k_genre; k_mood; k_release_era; k_director; k_runtime])
  /\ identify_slots (T := excerpt) (u "dar" ++ [8490])
     = Ok ([(k_mood, u "serious")],
           [k_genre; k_release_era; k_director; k_language; k_runtime]).
Proof. vm_compute. repeat split. Qed.

Example arabic_indic_year :
  int (T := excerpt) (u "٢٠١٠") = Some 2010%Z
  /\ identify_slots (T := excerpt) (u "20١٠")
     = Ok ([(k_release_era, u "2010")],
           [k_genre; k_mood; k_director; k_language; k_runtime])
  /\ retrieve_candidates (T := excerpt) [(k_release_era, u "٢٠١٠")] 3
     = Ok [inception; parasite; la_la_land].
Proof. vm_compute. repeat split. Qed.

Example circled_digits_era :
  isdigit (T := excerpt) (u "①①①①") = true
  /\ int (T := excerpt) (u "①①①①") = None
  /\ era_ok (T := excerpt) [(k_release_era, u "①①①①s")] = false
  /\ retrieve_candidates (T := excerpt) [(k_release_era, u "①①①①s")] 3
     = Raise ValueError.
Proof. vm_compute. repeat split. Qed.

Example strip_ideographic_space :
  strip (T := excerpt) ([32; 12288] ++ u "hi") = u "hi".
Proof. vm_compute. reflexivity. Qed.

(* ================================================================== *)
(** ** The theorems with hypotheses at sample inputs, and the refuted
       statements *)

Lemma retrieve_candidates_nonpositive_top_k_witness :
  retrieve_candidates [(u "genre", u "Action")] (-1) = Ok [the_avengers; inception]
  /\ retrieve_candidates [(u "genre", u "Action")] (-3)
     = Ok [parasite; la_la_land].
Proof.
  split.
  - refine (eq_trans (retrieve_candidates_nonpositive_top_k
                        [(u "genre", u "Action")] (-1) _ _) _);
      [vm_compute; reflexivity | lia | vm_compute; reflexivity].
  - refine (eq_trans (retrieve_candidates_nonpositive_top_k
                        [(u "genre", u "Action")] (-3) _ _) _);
      [vm_compute; reflexivity | lia | vm_compute; reflexivity].
Defined.

(** C5, refuted as stated: with [top_k = -1] the slice drops the last entry
    only, so four candidates are returned for the empty mapping and two for
    the genre Action. *)
Lemma retrieve_candidates_negative_top_k :
  (-1 <= 0)%Z
  /\ retrieve_candidates [] (-1) = Ok [inception; parasite; the_avengers; la_la_land]
  /\ retrieve_candidates [(u "genre", u "Action")] (-1) = Ok [the_avengers; inception].
Proof. split; [discriminate | exact negative_top_k_slices]. Qed.

Lemma whole_word_min_sets_long_witness :
  re_test short_re (lower (u "Something under 90 MIN please")) = true
  /\ re_test long_re (lower (u "Something under 90 MIN please")) = true
  /\ exists filled missing,
       identify_slots (u "Something under 90 MIN please") = Ok (filled, missing)
       /\ dict_get k_runtime filled = Some (u "long").
Proof.
  apply (whole_word_min_sets_long (u "Something under 90 MIN please")
           (u "something under 90 ") (u " please"));
    vm_compute; reflexivity.
Defined.

Lemma english_wins_over_korean_witness :
  (exists filled missing,
     identify_slots (u "A Korean film dubbed in English") = Ok (filled, missing)
     /\ dict_get k_language filled = Some (u "English"))
  /\ (forall text d,
        dict_get k_language (detect_language_words text d)
        = if str_in (u "english") text then Some (u "English")
          else if str_in (u "korean") text then Some (u "Korean")
          else dict_get k_language d).
Proof.
  apply (english_wins_over_korean (u "A Korean film dubbed in English"));
    vm_compute; reflexivity.
Defined.

Lemma all_filled_action_question_witness :
  get_ai_response (u "A long, fun action movie by Nolan from 2010 in English")
  = Ok (u "Great — for action, do you want something gritty/realistic or a fun blockbuster?").
Proof.
  apply (all_filled_action_question
           (u "A long, fun action movie by Nolan from 2010 in English")
           [(u "genre", u "Action"); (u "mood", u "fun");
            (u "director", u "Christopher Nolan"); (u "release_era", u "2010");
            (u "language", u "English"); (u "runtime", u "long")]
           [] (u "Action"));
    vm_compute; reflexivity.
Defined.

Lemma question_depends_on_slots_only_witness :
  get_ai_response (u "") = get_ai_response (u "hello there").
Proof.
  apply (question_depends_on_slots_only (u "") (u "hello there")).
  vm_compute. reflexivity.
Defined.

(** C6, refuted as stated: the lowercased text of ["minute"] contains
    ["min"], yet neither runtime pattern matches (both ask for word
    boundaries around it) and the runtime slot stays missing. *)
Lemma min_inside_a_word_sets_no_runtime :
  str_in (u "min") (lower (u "minute")) = true
  /\ re_test short_re (lower (u "minute")) = false
  /\ re_test long_re (lower (u "minute")) = false
  /\ identify_slots (u "minute")
     = Ok ([], [u "genre"; u "mood"; u "release_era"; u "director";
                u "language"; u "runtime"]).
Proof. exact minute_sets_no_runtime. Qed.

Lemma retrieve_candidates_between_one_and_top_k_witness :
  exists l,
    retrieve_candidates [(u "genre", u "Action"); (u "release_era", u "2010s")] 2 = Ok l
    /\ (1 <= List.length l)%nat
    /\ (Z.of_nat (List.length l) <= 2)%Z.
Proof.
  apply (retrieve_candidates_between_one_and_top_k
           [(u "genre", u "Action"); (u "release_era", u "2010s")] 2).
  - vm_compute. reflexivity.
  - lia.
Defined.

Lemma retrieve_candidates_fallback_most_recent_witness :
  retrieve_candidates [(u "genre", u "Western"); (u "mood", u "bleak")] 3
  = Ok (slice_to [parasite; la_la_land; the_avengers; inception; the_dark_knight] 3).
Proof.
  apply (retrieve_candidates_fallback_most_recent
           [(u "genre", u "Western"); (u "mood", u "bleak")] 3);
    vm_compute; reflexivity.
Defined.

Lemma retrieve_candidates_distinct_catalog_entries_witness :
  exists l,
    retrieve_candidates [(u "mood", u "serious"); (u "release_era", u "2019")] 10 = Ok l
    /\ NoDup l
    /\ (forall m, In m l -> In m MOVIE_DB)
    /\ (List.length l <= 5)%nat.
Proof.
  apply (retrieve_candidates_distinct_catalog_entries
           [(u "mood", u "serious"); (u "release_era", u "2019")] 10).
  vm_compute. reflexivity.
Defined.

Lemma retrieve_candidates_ranked_witness :
  exists l,
    retrieve_candidates [(u "genre", u "Action"); (u "mood", u "serious")] 3 = Ok l
    /\ StronglySorted (ranks_before [(u "genre", u "Action"); (u "mood", u "serious")]) l
    /\ (no_positive_score [(u "genre", u "Action"); (u "mood", u "serious")] = false ->
        forall m, In m l ->
          (0 < score_of [(u "genre", u "Action"); (u "mood", u "serious")] m)%Z).
Proof.
  apply (retrieve_candidates_ranked
           [(u "genre", u "Action"); (u "mood", u "serious")] 3).
  - vm_compute. reflexivity.
  - reflexivity.
  - lia.
Defined.

Lemma retrieve_candidates_prefix_witness :
  exists l t,
    retrieve_candidates [(u "genre", u "Action")] 1 = Ok l
    /\ retrieve_candidates [(u "genre", u "Action")] 3 = Ok (l ++ t).
Proof.
  apply (retrieve_candidates_prefix [(u "genre", u "Action")] 1 3).
  - vm_compute. reflexivity.
  - lia.
Defined.

Lemma all_filled_other_genre_question_witness :
  get_ai_response (u "A long, sad drama by Whedon from 2012 in English")
  = Ok (u "Do you want something by " ++ u "Joss Whedon"
        ++ u " specifically, or films with a similar tone?").
Proof.
  apply (all_filled_other_genre_question
           (u "A long, sad drama by Whedon from 2012 in English")
           [(u "genre", u "Drama"); (u "mood", u "emotional");
            (u "director", u "Joss Whedon"); (u "release_era", u "2012");
            (u "language", u "English"); (u "runtime", u "long")]
           [] (u "Drama") (u "Joss Whedon"));
    vm_compute; reflexivity.
Defined.
